(** * full_simulation.py: seeded Poisson-disk sampling with a console trace

    A shallow embedding of [src/full_simulation.py] and the proofs of its
    specification.

    Conventions of the embedding.
    - Python integers are [Z]; the masks [& 0xFFFFFFFF] are written out with
      [Z.land].
    - [SeededRandom.next] returns the double [u / 4294967296] for an integer
      [0 <= u < 2^32].  Such a quotient is a dyadic rational with a 32-bit
      numerator, which binary64 represents exactly, so the returned double is
      modelled by the rational number it denotes ([Q]).  The products
      [next() * gridWidth] and [next() * len(activeList)] have numerators
      below 2^53 and are exact as well.
    - [cellSize = minDistance / math.sqrt(2)] is a rounded irrational: it is
      modelled as the binary64 value itself, with Rocq's primitive floats.
    - [math.sqrt(n) < r] on integers [n], [r] is modelled by the exact
      comparison it decides ([sqrt_lt] below, related to the real square
      root in [sqrt_lt_real] and to the binary64 computation, on the
      distances of the domain, in [sqrt_lt_double_exact]).
    - [round(point + radius * (cos angle, sin angle))] depends on the
      platform's libm; it is a parameter of the development ([propose]),
      and every theorem holds for every such function. *)

From Stdlib Require Import ZArith QArith Qround Reals Lia Lra Psatz.
From Stdlib Require Import Strings.String Strings.Ascii.
From Stdlib Require Import Numbers.DecimalString.
From Stdlib Require Floats.PrimFloat Floats.FloatOps Floats.SpecFloat.
From Stdlib Require Numbers.Cyclic.Int63.Uint63.
From stdpp Require Import base list.

Local Open Scope Z_scope.

(** ** Mulberry32 PRNG (class [SeededRandom]) *)

Module SeededRandom.

(** The object has one attribute, [self.seed]. *)
Record t : Type := mk { seed : Z }.

(** [__init__]: [self.seed = seed & 0xFFFFFFFF]. *)
Definition init (s : Z) : t := mk (Z.land s 0xFFFFFFFF).

(** [next].  In Python [&] binds weaker than [+] and tighter than [^], so
    line 12 reads
    [(t ^ ((t + (t ^ (t >> 7)) * (t | 61)) & 0xFFFFFFFF)) & 0xFFFFFFFF].
    The result is the returned double (see the conventions above) and the
    object after the call. *)
Definition next (self : t) : Q * t :=
  let t0 := Z.land (seed self + 0x6D2B79F5) 0xFFFFFFFF in
  let self' := mk t0 in
  let t1 := Z.land (Z.lxor t0 (Z.shiftr t0 15) * Z.lor t0 1) 0xFFFFFFFF in
  let t2 :=
    Z.land
      (Z.lxor t1
         (Z.land (t1 + Z.lxor t1 (Z.shiftr t1 7) * Z.lor t1 61) 0xFFFFFFFF))
      0xFFFFFFFF in
  ((inject_Z (Z.shiftr (Z.lxor t2 (Z.shiftr t2 14)) 0)
    / inject_Z 4294967296)%Q, self').


(** The object after [n] calls of [next()]. *)
Definition after (n : nat) (self : t) : t :=
  Nat.iter n (fun r => snd (next r)) self.

(** The Mulberry32 step as the specification words it: unsigned 32-bit
    arithmetic, every operation reduced modulo 2^32. *)
Definition spec_state (s : Z) : Z := (s + 0x6D2B79F5) mod 2 ^ 32.

Definition spec_output (s : Z) : Z :=
  let t := spec_state s in
  let t := ((Z.lxor t (Z.shiftr t 15)) * (Z.lor t 1)) mod 2 ^ 32 in
  let t :=
    (Z.lxor t (t + ((Z.lxor t (Z.shiftr t 7)) * (Z.lor t 61)) mod 2 ^ 32))
      mod 2 ^ 32 in
  (Z.lxor t (Z.shiftr t 14)) mod 2 ^ 32.

End SeededRandom.


(** ** Python primitives used by the script *)

(** [int(q)] on a float: truncation toward zero. *)
Definition py_int (q : Q) : Z :=
  if Qle_bool 0 q then Qfloor q else Qceiling q.

(** [l[i]]: a negative index counts from the end; [None] is [IndexError]. *)
Definition py_getitem {A : Type} (l : list A) (i : Z) : option A :=
  let n := Z.of_nat (length l) in
  if (0 <=? i) && (i <? n) then l !! Z.to_nat i
  else if (i <? 0) && (0 <=? i + n) then l !! Z.to_nat (i + n)
  else None.

(** [l.pop(i)]: the list after the call; [None] is [IndexError]. *)
Definition py_pop {A : Type} (l : list A) (i : Z) : option (list A) :=
  let n := Z.of_nat (length l) in
  if (0 <=? i) && (i <? n) then Some (delete (Z.to_nat i) l)
  else if (i <? 0) && (0 <=? i + n) then Some (delete (Z.to_nat (i + n)) l)
  else None.

(** [float(z)] for an integer below 2^53 in absolute value (exact there);
    every integer the script converts is a coordinate or a constant. *)
Definition float_of_int (z : Z) : PrimFloat.float :=
  if z <? 0 then PrimFloat.opp (PrimFloat.of_uint63 (Uint63.of_Z (- z)))
  else PrimFloat.of_uint63 (Uint63.of_Z z).

(** [int(f)] on a finite double: truncation toward zero.  (On an infinity
    or a NaN Python raises; no quotient of the script is one.) *)
Definition int_of_float (f : PrimFloat.float) : Z :=
  match FloatOps.Prim2SF f with
  | SpecFloat.S754_finite s m e =>
      let a := match e with
               | Z0 => Zpos m
               | Zpos k => Zpos m * 2 ^ Zpos k
               | Zneg k => Zpos m / 2 ^ Zpos k
               end in
      if s then - a else a
  | _ => 0
  end.

(** [math.ceil(f)] on a finite double. *)
Definition ceil_of_float (f : PrimFloat.float) : Z :=
  match FloatOps.Prim2SF f with
  | SpecFloat.S754_finite s m e =>
      match e with
      | Z0 => if s then Zneg m else Zpos m
      | Zpos k => (if s then Zneg m else Zpos m) * 2 ^ Zpos k
      | Zneg k => - ((if s then Zpos m else Zneg m) / 2 ^ Zpos k)
      end
  | _ => 0
  end.

(** [math.sqrt(n) < r] for integers [n >= 0] and [r]: the comparison it
    decides.  The correctly rounded square root is monotone and exact on
    perfect squares, so for the magnitudes of this program the double
    comparison and the exact one agree. *)
Definition sqrt_lt (n r : Z) : bool := (0 <? r) && (n <? r * r).

(** ** Configuration *)

(** A point is the dict [{"x": ..., "y": ...}]; the script never mutates
    one after building it, so it is modelled by value. *)
Record point : Type := Point { px : Z; py : Z }.

(** An exclusion zone is the dict [{"x": ..., "y": ..., "radius": ...}]
    with integer entries, as the script writes them. *)
Record zone : Type := Zone { zx : Z; zy : Z; zradius : Z }.

Definition minDistance : Z := 5.
Definition maxAttempts : nat := 50.
Definition gridWidth : Z := 72.
Definition gridHeight : Z := 48.
Definition cellSize : PrimFloat.float :=
  PrimFloat.div (float_of_int minDistance) (PrimFloat.sqrt (float_of_int 2)).
Definition gridCols : Z :=
  ceil_of_float (PrimFloat.div (float_of_int gridWidth) cellSize).
Definition gridRows : Z :=
  ceil_of_float (PrimFloat.div (float_of_int gridHeight) cellSize).

(** The zone list of the script. *)
Definition defaultZones : list zone := [Zone 36 24 1].

(** The seed of the script. *)
Definition defaultSeed : Z := 12345.

(** ** Geometry and the grid *)

(** [(p.x - q.x)**2 + (p.y - q.y)**2] *)
Definition dist2 (ax ay bx by_ : Z) : Z := (ax - bx) ^ 2 + (ay - by_) ^ 2.

(** The Euclidean distance, as a real number (for the statements). *)
Definition euclid (ax ay bx by_ : Z) : R := sqrt (IZR (dist2 ax ay bx by_)).

(** [int(v / cellSize)] *)
Definition gridIndex (v : Z) : Z :=
  int_of_float (PrimFloat.div (float_of_int v) cellSize).

(** The grid: [gridRows] rows, each a fresh list of [gridCols] cells
    (the comprehension builds every row anew, so rows are not aliased). *)
Abbreviation grid_t := (list (list (option point))).

Definition emptyGrid : grid_t :=
  replicate (Z.to_nat gridRows) (replicate (Z.to_nat gridCols) None).

(** [grid[y][x]], for indices the caller has checked to be in range. *)
Definition cell (grid : grid_t) (y x : Z) : option point :=
  row ← grid !! Z.to_nat y; c ← row !! Z.to_nat x; c.

Definition insertIntoGrid (grid : grid_t) (p : point) : grid_t :=
  let gridX := gridIndex (px p) in
  let gridY := gridIndex (py p) in
  if (0 <=? gridY) && (gridY <? gridRows) && (0 <=? gridX) && (gridX <? gridCols)
  then alter (fun row => <[Z.to_nat gridX := Some p]> row) (Z.to_nat gridY) grid
  else grid.

(** [range(-2, 3)] *)
Definition window : list Z := [-2; -1; 0; 1; 2].

Definition hasNearbyPoints (grid : grid_t) (p : point) : bool :=
  let gridX := gridIndex (px p) in
  let gridY := gridIndex (py p) in
  existsb (fun dy =>
    existsb (fun dx =>
      let checkX := gridX + dx in
      let checkY := gridY + dy in
      if (0 <=? checkY) && (checkY <? gridRows)
         && (0 <=? checkX) && (checkX <? gridCols)
      then match cell grid checkY checkX with
           | Some existingPoint =>
               sqrt_lt (dist2 (px p) (py p) (px existingPoint) (py existingPoint))
                       minDistance
           | None => false
           end
      else false) window) window.

Definition isInBounds (p : point) : bool :=
  (0 <=? px p) && (px p <? gridWidth) && (0 <=? py p) && (py p <? gridHeight).

(** The loop of [isInExcludedZone] over a zone list. *)
Fixpoint inSomeZone (zones : list zone) (p : point) : bool :=
  match zones with
  | [] => false
  | z :: rest =>
      if sqrt_lt (dist2 (px p) (py p) (zx z) (zy z)) (zradius z) then true
      else inSomeZone rest p
  end.

(** ** The trace *)

(** One constructor per [print] statement of the script, with the values
    the statement interpolates. *)
Inductive line : Type :=
| PInitial (p : point)                 (* line 79 *)
| PBlank                               (* lines 80 and 134 *)
| PIteration (iteration : Z)           (* line 94 *)
| PSizes (active points : nat)         (* line 95 *)
| PSelected (p : point)                (* line 96 *)
| PFound (candidate : point) (attempts : Z)   (* line 126 *)
| PFailed                              (* line 130 *)
| PRejections (bounds excluded nearby : Z)    (* line 131 *)
| PStopping                            (* line 137 *)
| PFinal (n : nat)                     (* line 140 *)
| PPoints (points : list point).       (* line 141 *)

Local Open Scope string_scope.








Local Close Scope string_scope.

(** ** The script *)

(** Uncaught exceptions of the script. *)
Inductive exn : Type := TypeError | IndexError.

(** The dict [rejection_reasons]. *)
Record rejections : Type :=
  Rejections { bounds : Z; excluded : Z; nearby : Z }.

(** The module-level variables the main loop reads and writes, and what
    has been printed so far. *)
Record state : Type := State {
  rng : SeededRandom.t;
  grid : grid_t;
  points : list point;
  activeList : list point;
  iteration : Z;
  stdout : list line
}.

(** How a run ends: the script reaches its last line, or an exception
    propagates (with what had been printed before it). *)
Inductive outcome : Type :=
| Finished (final : state)
| Raised (e : exn) (printed : list line).

(** The result of the inner [for i in range(maxAttempts)] loop. *)
Inductive placement : Type :=
| Placed (candidate : point) (i : Z) (rng' : SeededRandom.t)
| Exhausted (rejection_reasons : rejections) (rng' : SeededRandom.t).

(** ** A reference evaluation of the candidate

    Lines 102-108 evaluated in binary64 as Python evaluates them, with
    [math.cos] and [math.sin] replaced by the partial sums of their power
    series (accurate to a few units in the last place on [0, 2 pi)).  It
    instantiates the parameter [propose] of the development in the
    examples. *)

(** [round(f)] on a finite double: the nearest integer, ties to even. *)
Definition round_of_float (f : PrimFloat.float) : Z :=
  match FloatOps.Prim2SF f with
  | SpecFloat.S754_finite s m e =>
      let a := match e with
               | Z0 => Zpos m
               | Zpos k => Zpos m * 2 ^ Zpos k
               | Zneg k =>
                   let d := 2 ^ Zpos k in
                   let q := Zpos m / d in
                   let r := 2 * (Zpos m mod d) in
                   if r <? d then q
                   else if d <? r then q + 1
                   else if Z.even q then q else q + 1
               end in
      if s then - a else a
  | _ => 0
  end.

(** The double of a draw [u / 4294967296]. *)
Definition float_of_draw (q : Q) : PrimFloat.float :=
  PrimFloat.div (float_of_int (Qnum q)) (float_of_int (Zpos (Qden q))).

(** [math.pi], the double nearest to 3.141592653589793. *)
Definition float_pi : PrimFloat.float :=
  PrimFloat.div (float_of_int 3141592653589793) (float_of_int 1000000000000000).

(** [(cos x, sin x)] by the power series: [term] is [x^k / k!], added to
    the cosine for even [k] and to the sine for odd [k], with the sign of
    the series. *)
Fixpoint seriesCosSin (n : nat) (k : Z) (x term c s : PrimFloat.float)
  : PrimFloat.float * PrimFloat.float :=
  match n with
  | O => (c, s)
  | S n' =>
      let '(c, s) :=
        match k mod 4 with
        | 0 => (PrimFloat.add c term, s)
        | 1 => (c, PrimFloat.add s term)
        | 2 => (PrimFloat.sub c term, s)
        | _ => (c, PrimFloat.sub s term)
        end in
      seriesCosSin n' (k + 1) x
        (PrimFloat.div (PrimFloat.mul term x) (float_of_int (k + 1))) c s
  end.

Definition refPropose (point0 : point) (u v : Q) : point :=
  let angle :=
    PrimFloat.mul (PrimFloat.mul (float_of_draw u) float_pi) (float_of_int 2) in
  let radius :=
    PrimFloat.mul (float_of_int minDistance)
      (PrimFloat.add (float_of_int 1) (float_of_draw v)) in
  let '(c, s) :=
    seriesCosSin 48 0 angle (float_of_int 1) (float_of_int 0) (float_of_int 0) in
  Point
    (round_of_float
       (PrimFloat.add (float_of_int (px point0)) (PrimFloat.mul radius c)))
    (round_of_float
       (PrimFloat.add (float_of_int (py point0)) (PrimFloat.mul radius s))).

(** ** Configurations of the examples *)


(** Four zones that leave only the point (70, 14) of the domain free. *)
Definition boxedZones : list zone :=
  [Zone 170 14 100; Zone (-30) 14 100; Zone 70 114 100; Zone 70 (-86) 100].

(** A zone that leaves only the rows 0 to 3 of the domain free. *)
Definition stripZones : list zone := [Zone 36 10003 10000].

(** The state a run finished in (the state before the main loop of a run
    from the origin when there is none). *)
Definition finalState (res : option outcome) : state :=
  match res with
  | Some (Finished st) => st
  | _ => State (SeededRandom.init 0) emptyGrid [] [] 0 []
  end.

(** The outcome of a run that returned. *)
Definition outcomeAt (res : option outcome) : outcome :=
  match res with
  | Some o => o
  | None => Raised TypeError []
  end.

(** ** Tables over the coordinates of the domain *)

(** [0, 1, ..., n-1] *)
Definition upto (n : nat) : list Z := map Z.of_nat (seq 0 n).

(** The integer that [int(v / cellSize)] is for a coordinate [v] of the
    domain: the floor of [v * sqrt 2 / 5]. *)
Definition gridIndexExact (v : Z) : Z := Z.sqrt (2 * v * v) / 5.

Definition gridIndexTable : bool :=
  forallb (fun v => gridIndex v =? gridIndexExact v) (upto 72).

(** The cell index does not decrease from a coordinate to the next. *)
Definition cellMonotoneTable : bool :=
  forallb (fun v => gridIndex v <=? gridIndex (v + 1)) (upto 71).

(** Four steps further the cell index is one or two higher (a cell is
    more than 3 and less than 4 wide). *)
Definition cellLowerTable : bool :=
  forallb (fun v => gridIndex v + 1 <=? gridIndex (v + 4)) (upto 68).

Definition cellUpperTable : bool :=
  forallb (fun v => gridIndex (v + 4) <=? gridIndex v + 2) (upto 68).

(** The cell indices of the domain are indices of the grid. *)
Definition cellColsTable : bool :=
  forallb (fun v => (0 <=? gridIndex v) && (gridIndex v <? gridCols)) (upto 72).

Definition cellRowsTable : bool :=
  forallb (fun v => (0 <=? gridIndex v) && (gridIndex v <? gridRows)) (upto 48).

(** ** Further predicates on states and traces *)

(** The candidate of one attempt of the search for the initial point
    (lines 71-74), from the generator before the attempt. *)
Definition initialCandidate (r : SeededRandom.t) : point :=
  let '(u, r) := SeededRandom.next r in
  let '(v, _) := SeededRandom.next r in
  Point (py_int (u * inject_Z gridWidth)) (py_int (v * inject_Z gridHeight)).

(** The counters of the main loop against the sizes of its lists. *)
Definition counted (st : state) : Prop :=
  (length (activeList st) <= length (points st))%nat
  /\ iteration st
     = 2 * Z.of_nat (length (points st)) - 1 - Z.of_nat (length (activeList st)).

(** What a printed line says about the points placed by the end. *)
Definition lineFits (pts : list point) (l : line) : Prop :=
  match l with
  | PInitial p => pts !! 0%nat = Some p
  | PSizes a n => (a <= n)%nat /\ (n <= length pts)%nat
  | PSelected p => In p pts
  | PFound c k => 1 <= k <= Z.of_nat maxAttempts /\ In c pts
  | _ => True
  end.

(** The grid holds the placed points and nothing else, each in the cell
    of its coordinates. *)
Definition gridExact (g : grid_t) (pts : list point) : Prop :=
  forall (y x : Z) (e : point),
    0 <= y -> 0 <= x ->
    (cell g y x = Some e
     <-> In e pts /\ y = gridIndex (py e) /\ x = gridIndex (px e)).

(** [math.sqrt(n) < r] as the script computes it, in binary64. *)
Definition sqrt_lt_double (n r : Z) : bool :=
  PrimFloat.ltb (PrimFloat.sqrt (float_of_int n)) (float_of_int r).

Section Sampler.

(** The exclusion zones of the run. *)
Variable excludedZones : list zone.

(** [propose point u v] is the candidate of lines 102-108 for the draws
    [u] (the angle's) and [v] (the radius's):
    [round(point + minDistance * (1 + v) * (cos, sin)(u * pi * 2))]. *)
Variable propose : point -> Q -> Q -> point.

Definition isInExcludedZone (p : point) : bool := inSomeZone excludedZones p.

(** Lines 69-77: the search for the initial point, [n] attempts left. *)
Fixpoint findInitial (n : nat) (r : SeededRandom.t)
  : option point * SeededRandom.t :=
  match n with
  | O => (None, r)
  | S n' =>
      let '(u, r) := SeededRandom.next r in
      let '(v, r) := SeededRandom.next r in
      let candidate :=
        Point (py_int (u * inject_Z gridWidth)) (py_int (v * inject_Z gridHeight)) in
      if negb (isInExcludedZone candidate) then (Some candidate, r)
      else findInitial n' r
  end.

(** Lines 101-127: the attempts [i], [i+1], ... of one iteration, [n] of
    them left. *)
Fixpoint tryPlace (n : nat) (i : Z) (point0 : point) (g : grid_t)
    (r : SeededRandom.t) (rej : rejections) : placement :=
  match n with
  | O => Exhausted rej r
  | S n' =>
      let '(u, r) := SeededRandom.next r in
      let '(v, r) := SeededRandom.next r in
      let candidate := propose point0 u v in
      if negb (isInBounds candidate) then
        tryPlace n' (i + 1) point0 g r
          (Rejections (bounds rej + 1) (excluded rej) (nearby rej))
      else if isInExcludedZone candidate then
        tryPlace n' (i + 1) point0 g r
          (Rejections (bounds rej) (excluded rej + 1) (nearby rej))
      else if hasNearbyPoints g candidate then
        tryPlace n' (i + 1) point0 g r
          (Rejections (bounds rej) (excluded rej) (nearby rej + 1))
      else Placed candidate i r
  end.

(** Lines 89-134: the body of the [while] loop up to the cap test. *)
Definition iterationBody (st : state) : exn * list line + state :=
  let iteration := iteration st + 1 in
  let '(u, r) := SeededRandom.next (rng st) in
  let randomIndex :=
    py_int (u * inject_Z (Z.of_nat (length (activeList st)))) in
  match py_getitem (activeList st) randomIndex with
  | None => inl (IndexError, stdout st)
  | Some point0 =>
      let out :=
        stdout st ++
        [PIteration iteration;
         PSizes (length (activeList st)) (length (points st));
         PSelected point0] in
      match tryPlace maxAttempts 0 point0 (grid st) r (Rejections 0 0 0) with
      | Placed candidate i r =>
          inr (State r (insertIntoGrid (grid st) candidate)
                 (points st ++ [candidate]) (activeList st ++ [candidate])
                 iteration
                 (out ++ [PFound candidate (i + 1); PBlank]))
      | Exhausted rej r =>
          let out :=
            out ++ [PFailed;
                    PRejections (bounds rej) (excluded rej) (nearby rej)] in
          match py_pop (activeList st) randomIndex with
          | None => inl (IndexError, out)
          | Some rest =>
              inr (State r (grid st) (points st) rest iteration
                     (out ++ [PBlank]))
          end
      end
  end.

(** [len(activeList) > 0 and len(points) < 15] *)
Definition loopCondition (st : state) : bool :=
  (0 <? Z.of_nat (length (activeList st)))
  && (Z.of_nat (length (points st)) <? 15).

Definition print (l : line) (st : state) : state :=
  State (rng st) (grid st) (points st) (activeList st) (iteration st)
    (stdout st ++ [l]).

(** Lines 88-138: the [while] loop, with [fuel] iterations allowed;
    [None] when the fuel runs out before the loop ends. *)
Fixpoint mainLoop (fuel : nat) (st : state) : option (exn * list line + state) :=
  if loopCondition st then
    match fuel with
    | O => None
    | S fuel' =>
        match iterationBody st with
        | inl e => Some (inl e)
        | inr st' =>
            if 20 <? iteration st' then Some (inr (print PStopping st'))
            else mainLoop fuel' st'
        end
    end
  else Some (inr st).

(** Lines 140-141. *)
Definition report (st : state) : state :=
  print (PPoints (points st)) (print (PFinal (length (points st))) st).

(** The state when the main loop is entered (lines 79-87). *)
Definition enter (initial : point) (r : SeededRandom.t) : state :=
  State r (insertIntoGrid emptyGrid initial) [initial] [initial] 0
    [PInitial initial; PBlank].

(** The whole script for a seed.  When no initial point is found,
    [initial] is still [None] at line 79 and the subscript
    [initial['x']] raises [TypeError] before anything is printed. *)
Definition run (fuel : nat) (seed : Z) : option outcome :=
  match findInitial 1000 (SeededRandom.init seed) with
  | (None, _) => Some (Raised TypeError [])
  | (Some initial, r) =>
      match mainLoop fuel (enter initial r) with
      | None => None
      | Some (inl (e, printed)) => Some (Raised e printed)
      | Some (inr st) => Some (Finished (report st))
      end
  end.

(** The outcome for what the main loop returns. *)
Definition outcomeOf (res : exn * list line + state) : outcome :=
  match res with
  | inl (e, out) => Raised e out
  | inr st => Finished (report st)
  end.

(** *** Executions as a transition system

    A configuration is the script inside its main loop, or stopped. *)
Inductive config : Type :=
| Looping (st : state)
| Stopped (o : outcome).

Inductive step : config -> config -> Prop :=
| step_exit st :
    loopCondition st = false ->
    step (Looping st) (Stopped (Finished (report st)))
| step_raise st e printed :
    loopCondition st = true ->
    iterationBody st = inl (e, printed) ->
    step (Looping st) (Stopped (Raised e printed))
| step_next st st' :
    loopCondition st = true ->
    iterationBody st = inr st' ->
    iteration st' <= 20 ->
    step (Looping st) (Looping st')
| step_cap st st' :
    loopCondition st = true ->
    iterationBody st = inr st' ->
    20 < iteration st' ->
    step (Looping st) (Stopped (Finished (report (print PStopping st')))).

(** [steps n c c']: [c'] is reached from [c] in [n] transitions. *)
Inductive steps : nat -> config -> config -> Prop :=
| steps_refl c : steps 0 c c
| steps_cons n c1 c2 c3 : step c1 c2 -> steps n c2 c3 -> steps (S n) c1 c3.

(** The configuration in which an execution for [seed] starts. *)
Definition start (seed : Z) : config :=
  match findInitial 1000 (SeededRandom.init seed) with
  | (None, _) => Stopped (Raised TypeError [])
  | (Some initial, r) => Looping (enter initial r)
  end.

(** An execution of the script for [seed] that ends with outcome [o]. *)
Definition execution (seed : Z) (o : outcome) : Prop :=
  exists n, steps n (start seed) (Stopped o).

(** The variant of the main loop: an accepted candidate uses up one of
    the points still allowed, a failed iteration one active entry. *)
Definition variant (st : state) : Z :=
  2 * (15 - Z.of_nat (length (points st))) + Z.of_nat (length (activeList st)).

(** *** Predicates of the specification *)

(** The grid has the shape it was allocated with. *)
Definition gridShape (g : grid_t) : Prop :=
  length g = Z.to_nat gridRows
  /\ Forall (fun row => length row = Z.to_nat gridCols) g.

(** The cells of [p] and [q] are within the 5x5 window of each other. *)
Definition inWindow (p q : point) : Prop :=
  Z.abs (gridIndex (px p) - gridIndex (px q)) <= 2
  /\ Z.abs (gridIndex (py p) - gridIndex (py q)) <= 2.

(** Every later point keeps the minimum distance to every earlier point
    whose cell is in its window. *)
Definition windowSeparated (l : list point) : Prop :=
  forall (i j : nat) (p q : point),
    (i < j)%nat -> l !! i = Some p -> l !! j = Some q -> inWindow p q ->
    minDistance ^ 2 <= dist2 (px p) (py p) (px q) (py q).

(** What a printed line must satisfy: a rejection subtotal accounts for
    every attempt, a header is printed for one of the 21 iterations with a
    non-empty pool and fewer than 15 points. *)
Definition lineOk (l : line) : Prop :=
  match l with
  | PRejections b e n =>
      0 <= b /\ 0 <= e /\ 0 <= n /\ b + e + n = Z.of_nat maxAttempts
  | PIteration k => 1 <= k <= 21
  | PSizes a n => (0 < a)%nat /\ (n < 15)%nat
  | _ => True
  end.

Definition isHeader (l : line) : bool :=
  match l with PIteration _ => true | _ => false end.

(** The number of iterations a trace records. *)
Definition iterationsRun (out : list line) : Z :=
  Z.of_nat (length (filter (fun l => isHeader l = true) out)).

(** The invariant of the main loop. *)
Record invariant (st : state) : Prop := Invariant {
  inv_shape : gridShape (grid st);
  inv_bounds : Forall (fun p => isInBounds p = true) (points st);
  inv_zones : Forall (fun p => isInExcludedZone p = false) (points st);
  inv_grid :
    Forall (fun p => cell (grid st) (gridIndex (py p)) (gridIndex (px p)) = Some p)
           (points st);
  inv_far : windowSeparated (points st);
  inv_active : Forall (fun p => In p (points st)) (activeList st);
  inv_size : (1 <= length (points st) <= 15)%nat;
  inv_iteration : 0 <= iteration st;
  inv_count : iterationsRun (stdout st) = iteration st;
  inv_lines : Forall lineOk (stdout st)
}.

(** The loop has not been cut short. *)
Definition running (st : state) : Prop :=
  iteration st <= 20 /\ ~ In PStopping (stdout st).

(** How the loop was left: after at most 21 iterations, with the notice
    exactly when the 21st was run, and for one of the three reasons. *)
Definition stopped (st : state) : Prop :=
  iteration st <= 21
  /\ (In PStopping (stdout st) <-> iteration st = 21)
  /\ (length (points st) = 15%nat \/ activeList st = [] \/ iteration st = 21).

(** What an outcome printed and placed. *)
Definition printed (o : outcome) : list line :=
  match o with Finished st => stdout st | Raised _ out => out end.



(** ** Lemmas on the generator *)

Lemma land_mask32 (z : Z) : Z.land z 0xFFFFFFFF = z mod 2 ^ 32.
Proof. change 0xFFFFFFFF with (Z.ones 32). apply Z.land_ones. lia. Qed.

Lemma mod32_range (z : Z) : 0 <= z mod 2 ^ 32 < 2 ^ 32.
Proof. apply Z.mod_pos_bound. lia. Qed.

Lemma lxor_range32 (a b : Z) :
  0 <= a < 2 ^ 32 -> 0 <= b < 2 ^ 32 -> 0 <= Z.lxor a b < 2 ^ 32.
Proof.
  intros Ha Hb. split.
  - apply Z.lxor_nonneg. lia.
  - destruct (Z.eq_dec (Z.lxor a b) 0) as [->|Hne]; [lia|].
    assert (0 < Z.lxor a b) by (pose proof (proj2 (Z.lxor_nonneg a b)); lia).
    apply Z.log2_lt_pow2; [lia|].
    eapply Z.le_lt_trans; [apply Z.log2_lxor; lia|].
    destruct (Z.eq_dec a 0) as [->|?]; destruct (Z.eq_dec b 0) as [->|?];
      cbn [Z.log2]; rewrite ?Z.max_id; try lia.
    + rewrite Z.max_r by (apply Z.log2_nonneg). apply Z.log2_lt_pow2; lia.
    + rewrite Z.max_l by (apply Z.log2_nonneg). apply Z.log2_lt_pow2; lia.
    + apply Z.max_lub_lt; apply Z.log2_lt_pow2; lia.
Qed.

Lemma shiftr_range32 (a n : Z) :
  0 <= n -> 0 <= a < 2 ^ 32 -> 0 <= Z.shiftr a n < 2 ^ 32.
Proof.
  intros Hn Ha. rewrite Z.shiftr_div_pow2 by lia. split.
  - apply Z.div_pos; lia.
  - apply Z.le_lt_trans with a; [|lia].
    apply Z.div_le_upper_bound; [lia|]. nia.
Qed.

Lemma mask_lxor32 (a b : Z) :
  Z.land (Z.lxor a b) 0xFFFFFFFF = Z.lxor (a mod 2 ^ 32) (b mod 2 ^ 32).
Proof.
  rewrite <- !land_mask32. apply Z.bits_inj'. intros n _.
  rewrite !Z.land_spec, !Z.lxor_spec, !Z.land_spec.
  now destruct (Z.testbit a n), (Z.testbit b n), (Z.testbit 0xFFFFFFFF n).
Qed.

(** The three masked assignments of [next], as the words of the
    specification have them. *)
Lemma next_unfold (self : SeededRandom.t) :
  SeededRandom.next self
  = ((inject_Z (SeededRandom.spec_output (SeededRandom.seed self))
      / inject_Z 4294967296)%Q,
     SeededRandom.mk (SeededRandom.spec_state (SeededRandom.seed self))).
Proof.
  unfold SeededRandom.next, SeededRandom.spec_output, SeededRandom.spec_state.
  cbv zeta. rewrite !land_mask32.
  set (t0 := (SeededRandom.seed self + 0x6D2B79F5) mod 2 ^ 32).
  set (t1 := (Z.lxor t0 (Z.shiftr t0 15) * Z.lor t0 1) mod 2 ^ 32).
  assert (H1 : 0 <= t1 < 2 ^ 32) by apply mod32_range.
  set (y := Z.lxor t1 (Z.shiftr t1 7) * Z.lor t1 61).
  assert (E : Z.lxor t1 ((t1 + y) mod 2 ^ 32) mod 2 ^ 32
              = Z.lxor t1 (t1 + y mod 2 ^ 32) mod 2 ^ 32).
  { rewrite <- (land_mask32 (Z.lxor t1 (t1 + y mod 2 ^ 32))).
    rewrite <- (land_mask32 (Z.lxor t1 ((t1 + y) mod 2 ^ 32))), !mask_lxor32.
    now rewrite Z.mod_mod, Z.add_mod_idemp_r by lia. }
  rewrite E.
  set (t2 := Z.lxor t1 (t1 + y mod 2 ^ 32) mod 2 ^ 32).
  assert (H2 : 0 <= t2 < 2 ^ 32) by apply mod32_range.
  rewrite Z.shiftr_0_r.
  rewrite (Z.mod_small (Z.lxor t2 (Z.shiftr t2 14))); [reflexivity|].
  apply lxor_range32; [assumption|]. apply shiftr_range32; [lia|assumption].
Qed.

Lemma spec_output_range (s : Z) : 0 <= SeededRandom.spec_output s < 2 ^ 32.
Proof. unfold SeededRandom.spec_output. cbv zeta. apply mod32_range. Qed.

Lemma unit_fraction_range (u : Z) :
  0 <= u < 2 ^ 32 ->
  (0 <= inject_Z u / inject_Z 4294967296)%Q
  /\ (inject_Z u / inject_Z 4294967296 < 1)%Q.
Proof.
  intros Hu. split.
  - apply Qle_shift_div_l; [reflexivity|].
    rewrite Qmult_0_l. change 0%Q with (inject_Z 0).
    rewrite <- Zle_Qle. lia.
  - apply Qlt_shift_div_r; [reflexivity|].
    rewrite Qmult_1_l. rewrite <- Zlt_Qlt. change 4294967296 with (2 ^ 32). lia.
Qed.

(** Every draw is in [0, 1). *)
Lemma next_range (self : SeededRandom.t) :
  (0 <= fst (SeededRandom.next self))%Q /\ (fst (SeededRandom.next self) < 1)%Q.
Proof.
  rewrite next_unfold. cbn [fst].
  apply unit_fraction_range, spec_output_range.
Qed.

Lemma init_mod (s : Z) :
  SeededRandom.init s = SeededRandom.mk (s mod 2 ^ 32).
Proof. unfold SeededRandom.init. now rewrite land_mask32. Qed.

(** C1.  [next()] is the Mulberry32 step of the specification: from the
    state [s] it moves to [(s + 0x6D2B79F5) mod 2^32], runs the two
    multiply-xor rounds modulo 2^32 and returns
    [((t xor (t >> 14)) mod 2^32) / 2^32]; the result is in [0, 1), and the
    state after the call differs from the state before it. *)
Theorem C1_next_is_mulberry32 (self : SeededRandom.t) :
  SeededRandom.next self
  = ((inject_Z (SeededRandom.spec_output (SeededRandom.seed self))
      / inject_Z (2 ^ 32))%Q,
     SeededRandom.mk (SeededRandom.spec_state (SeededRandom.seed self)))
  /\ (0 <= fst (SeededRandom.next self))%Q
  /\ (fst (SeededRandom.next self) < 1)%Q
  /\ SeededRandom.seed (snd (SeededRandom.next self))
     = (SeededRandom.seed self + 0x6D2B79F5) mod 2 ^ 32
  /\ SeededRandom.seed (snd (SeededRandom.next self))
     <> SeededRandom.seed self mod 2 ^ 32.
Proof.
  pose proof (next_range self) as [Hlo Hhi].
  repeat split; try assumption.
  - apply next_unfold.
  - now rewrite next_unfold.
  - rewrite next_unfold. cbn [snd SeededRandom.seed].
    unfold SeededRandom.spec_state. intros E.
    assert (D : ((SeededRandom.seed self + 0x6D2B79F5) - SeededRandom.seed self)
                  mod 2 ^ 32 = 0).
    { rewrite Zminus_mod, E, Z.sub_diag. reflexivity. }
    replace (SeededRandom.seed self + 0x6D2B79F5 - SeededRandom.seed self)
      with 0x6D2B79F5 in D by lia.
    vm_compute in D. discriminate.
Qed.



(** ** The grid index on the domain *)

Lemma upto_In (n : nat) (v : Z) : 0 <= v < Z.of_nat n -> In v (upto n).
Proof.
  intros Hv. unfold upto. apply in_map_iff. exists (Z.to_nat v). split.
  - lia.
  - apply in_seq. lia.
Qed.

Lemma forallb_upto (f : Z -> bool) (n : nat) :
  forallb f (upto n) = true -> forall v, 0 <= v < Z.of_nat n -> f v = true.
Proof.
  intros H v Hv. rewrite forallb_forall in H. apply H, upto_In, Hv.
Qed.

Lemma gridCols_eq : gridCols = 21.
Proof. vm_compute. reflexivity. Qed.

Lemma gridRows_eq : gridRows = 14.
Proof. vm_compute. reflexivity. Qed.

Lemma gridIndexTable_ok :
  forallb (fun v => gridIndex v =? gridIndexExact v) (upto 72) = true.
Proof. vm_compute. reflexivity. Qed.

Lemma cellMonotoneTable_ok :
  forallb (fun v => gridIndex v <=? gridIndex (v + 1)) (upto 71) = true.
Proof. vm_compute. reflexivity. Qed.

Lemma cellLowerTable_ok :
  forallb (fun v => gridIndex v + 1 <=? gridIndex (v + 4)) (upto 68) = true.
Proof. vm_compute. reflexivity. Qed.

Lemma cellUpperTable_ok :
  forallb (fun v => gridIndex (v + 4) <=? gridIndex v + 2) (upto 68) = true.
Proof. vm_compute. reflexivity. Qed.

Lemma cellColsTable_ok :
  forallb (fun v => (0 <=? gridIndex v) && (gridIndex v <? gridCols)) (upto 72)
  = true.
Proof. vm_compute. reflexivity. Qed.

Lemma cellRowsTable_ok :
  forallb (fun v => (0 <=? gridIndex v) && (gridIndex v <? gridRows)) (upto 48)
  = true.
Proof. vm_compute. reflexivity. Qed.

(** On the domain the double quotient truncates to the exact floor. *)
Lemma gridIndex_exact (v : Z) :
  0 <= v < 72 -> gridIndex v = gridIndexExact v.
Proof.
  intros Hv. apply Z.eqb_eq.
  exact (forallb_upto _ 72 gridIndexTable_ok v Hv).
Qed.

Lemma gridIndex_cols (v : Z) :
  0 <= v < gridWidth -> 0 <= gridIndex v < gridCols.
Proof.
  intros Hv. pose proof (forallb_upto _ 72 cellColsTable_ok v Hv) as H.
  apply andb_prop in H as [H1 H2].
  apply Z.leb_le in H1. apply Z.ltb_lt in H2. split; assumption.
Qed.

Lemma gridIndex_rows (v : Z) :
  0 <= v < gridHeight -> 0 <= gridIndex v < gridRows.
Proof.
  intros Hv. pose proof (forallb_upto _ 48 cellRowsTable_ok v Hv) as H.
  apply andb_prop in H as [H1 H2].
  apply Z.leb_le in H1. apply Z.ltb_lt in H2. split; assumption.
Qed.

(** A function that never decreases from an argument to the next is
    monotone. *)
Lemma monotone_steps (g : Z -> Z) (n : Z) :
  (forall v, 0 <= v < n - 1 -> g v <= g (v + 1)) ->
  forall a b, 0 <= a -> a <= b -> b < n -> g a <= g b.
Proof.
  intros Hstep a b Ha Hab Hb.
  assert (H : forall k : nat, a + Z.of_nat k < n -> g a <= g (a + Z.of_nat k)).
  { induction k as [|k IH]; intros Hk.
    - replace (a + Z.of_nat 0) with a by lia. lia.
    - replace (a + Z.of_nat (S k)) with (a + Z.of_nat k + 1) in * by lia.
      pose proof (Hstep (a + Z.of_nat k) ltac:(lia)).
      pose proof (IH ltac:(lia)). lia. }
  replace b with (a + Z.of_nat (Z.to_nat (b - a))) by lia.
  apply H. lia.
Qed.

(** Cells wider than 3 and narrower than 4: two coordinates of one cell
    are at most 3 apart, and two coordinates whose cells are 3 or more
    apart are at least 5 apart. *)
Lemma spread_steps (g : Z -> Z) (n : Z) :
  5 <= n ->
  (forall v, 0 <= v < n - 1 -> g v <= g (v + 1)) ->
  (forall v, 0 <= v < n - 4 -> g v + 1 <= g (v + 4)) ->
  (forall v, 0 <= v < n - 4 -> g (v + 4) <= g v + 2) ->
  forall a b, 0 <= a -> a <= b -> b < n ->
    (g a = g b -> b - a <= 3) /\ (3 <= g b - g a -> 5 <= b - a).
Proof.
  intros Hn Hstep Hlow Hup a b Ha Hab Hb.
  pose proof (monotone_steps g n Hstep) as Hmono. split.
  - intros E. destruct (Z_le_gt_dec (b - a) 3) as [|Hgt]; [assumption|].
    pose proof (Hlow a ltac:(lia)). pose proof (Hmono (a + 4) b ltac:(lia) ltac:(lia) Hb).
    lia.
  - intros E. destruct (Z_le_gt_dec 5 (b - a)) as [|Hlt]; [assumption|].
    destruct (Z_le_gt_dec a (n - 5)) as [Hin|Hout].
    + pose proof (Hup a ltac:(lia)).
      pose proof (Hmono b (a + 4) ltac:(lia) ltac:(lia) ltac:(lia)). lia.
    + pose proof (Hup (n - 5) ltac:(lia)).
      replace (n - 5 + 4) with (n - 1) in * by lia.
      pose proof (Hmono (n - 5) a ltac:(lia) ltac:(lia) ltac:(lia)).
      pose proof (Hmono b (n - 1) ltac:(lia) ltac:(lia) ltac:(lia)). lia.
Qed.

Lemma cellSpread_ordered (a b : Z) :
  0 <= a -> a <= b -> b < 72 ->
  (gridIndex a = gridIndex b -> b - a <= 3)
  /\ (3 <= gridIndex b - gridIndex a -> 5 <= b - a).
Proof.
  apply (spread_steps gridIndex 72); [lia| | |].
  - intros v Hv. apply Z.leb_le.
    exact (forallb_upto _ 71 cellMonotoneTable_ok v ltac:(lia)).
  - intros v Hv. apply Z.leb_le.
    exact (forallb_upto _ 68 cellLowerTable_ok v ltac:(lia)).
  - intros v Hv. apply Z.leb_le.
    exact (forallb_upto _ 68 cellUpperTable_ok v ltac:(lia)).
Qed.

Lemma gridIndex_monotone (a b : Z) :
  0 <= a -> a <= b -> b < 72 -> gridIndex a <= gridIndex b.
Proof.
  apply (monotone_steps gridIndex 72).
  intros v Hv. apply Z.leb_le.
  exact (forallb_upto _ 71 cellMonotoneTable_ok v ltac:(lia)).
Qed.

Lemma cellSpread (a b : Z) :
  0 <= a < 72 -> 0 <= b < 72 ->
  (gridIndex a = gridIndex b -> Z.abs (a - b) <= 3)
  /\ (3 <= Z.abs (gridIndex a - gridIndex b) -> 5 <= Z.abs (a - b)).
Proof.
  intros Ha Hb. destruct (Z_le_gt_dec a b) as [Hab|Hab].
  - pose proof (cellSpread_ordered a b ltac:(lia) Hab ltac:(lia)) as [H1 H2].
    pose proof (gridIndex_monotone a b ltac:(lia) Hab ltac:(lia)) as Hm.
    revert H1 H2 Hm. generalize (gridIndex a) (gridIndex b). intros ga gb. lia.
  - pose proof (cellSpread_ordered b a ltac:(lia) ltac:(lia) ltac:(lia)) as [H1 H2].
    pose proof (gridIndex_monotone b a ltac:(lia) ltac:(lia) ltac:(lia)) as Hm.
    revert H1 H2 Hm. generalize (gridIndex a) (gridIndex b). intros ga gb. lia.
Qed.

(** For every squared distance between two points of the domain the
    double comparison with [minDistance], and with the radius of the
    script's zone, is the exact one. *)
Lemma sqrt_lt_double_table :
  forallb (fun n => Bool.eqb (sqrt_lt_double n minDistance) (sqrt_lt n minDistance)
                    && Bool.eqb (sqrt_lt_double n 1) (sqrt_lt n 1))
          (upto (Z.to_nat 7251)) = true.
Proof. vm_compute. reflexivity. Qed.

Lemma sqrt_lt_double_exact (n : Z) :
  0 <= n <= 71 ^ 2 + 47 ^ 2 ->
  sqrt_lt_double n minDistance = sqrt_lt n minDistance
  /\ sqrt_lt_double n 1 = sqrt_lt n 1.
Proof.
  intros Hn.
  pose proof (forallb_upto _ (Z.to_nat 7251) sqrt_lt_double_table n ltac:(lia)) as H.
  apply andb_prop in H as [H1 H2].
  split; apply Bool.eqb_prop; assumption.
Qed.

(** ** Reading the primitives *)

Lemma isInBounds_spec (p : point) :
  isInBounds p = true
  <-> 0 <= px p < gridWidth /\ 0 <= py p < gridHeight.
Proof. unfold isInBounds. lia. Qed.

Lemma sqrt_lt_spec (n r : Z) : sqrt_lt n r = false <-> r <= 0 \/ r * r <= n.
Proof. unfold sqrt_lt. lia. Qed.

(** [sqrt_lt] decides the comparison with the real square root. *)
Lemma sqrt_lt_real (n r : Z) :
  0 <= n -> (sqrt_lt n r = true <-> (sqrt (IZR n) < IZR r)%R).
Proof.
  intros Hn. unfold sqrt_lt. split.
  - intros H. assert (Hr : 0 < r) by lia. assert (Hlt : n < r * r) by lia.
    rewrite <- (sqrt_square (IZR r)) by (apply IZR_le; lia).
    apply sqrt_lt_1_alt. split; [apply IZR_le; lia|].
    rewrite <- mult_IZR. apply IZR_lt, Hlt.
  - intros H.
    assert (Hr : 0 < r).
    { apply lt_IZR. eapply Rle_lt_trans; [apply sqrt_pos|exact H]. }
    assert (Hlt : n < r * r).
    { apply lt_IZR. rewrite mult_IZR.
      rewrite <- (sqrt_sqrt (IZR n)) by (apply IZR_le; lia).
      apply Rmult_le_0_lt_compat; try apply sqrt_pos; exact H. }
    lia.
Qed.

Lemma dist2_nonneg (ax ay bx by_ : Z) : 0 <= dist2 ax ay bx by_.
Proof. unfold dist2. nia. Qed.

(** A failed [math.sqrt(d) < r] test is a distance of at least [r]. *)
Lemma sqrt_lt_false_euclid (ax ay bx by_ r : Z) :
  sqrt_lt (dist2 ax ay bx by_) r = false -> (IZR r <= euclid ax ay bx by_)%R.
Proof.
  intros H. unfold euclid. apply Rnot_lt_le. intros Hlt.
  apply (sqrt_lt_real _ r (dist2_nonneg ax ay bx by_)) in Hlt. congruence.
Qed.


(** [int(u * n)] for a draw [u] is an index below [n]. *)
Lemma py_int_scaled (u : Q) (n : Z) :
  (0 <= u)%Q -> (u < 1)%Q -> 0 < n -> 0 <= py_int (u * inject_Z n) < n.
Proof.
  intros Hlo Hhi Hn.
  assert (Hn' : (0 < inject_Z n)%Q) by (change 0%Q with (inject_Z 0); now rewrite <- Zlt_Qlt).
  assert (H0 : (0 <= u * inject_Z n)%Q).
  { apply Qmult_le_0_compat; [exact Hlo|now apply Qlt_le_weak]. }
  assert (H1 : (u * inject_Z n < inject_Z n)%Q).
  { rewrite <- (Qmult_1_l (inject_Z n)) at 2. now apply Qmult_lt_compat_r. }
  unfold py_int. rewrite (proj2 (Qle_bool_iff _ _) H0). split.
  - change 0 with (Qfloor 0). now apply Qfloor_resp_le.
  - rewrite Zlt_Qlt. eapply Qle_lt_trans; [apply Qfloor_le|exact H1].
Qed.

(** ** The grid *)

Lemma existsb_false {A : Type} (f : A -> bool) (l : list A) :
  existsb f l = false <-> forall x, In x l -> f x = false.
Proof.
  induction l as [|a l IH]; cbn [existsb].
  - split; [intros _ x []|reflexivity].
  - rewrite orb_false_iff, IH. split.
    + intros [Ha Hl] x [<-|Hx]; [exact Ha|now apply Hl].
    + intros H. split; [apply H; now left|intros x Hx; apply H; now right].
Qed.

Lemma window_In (d : Z) : Z.abs d <= 2 -> In d window.
Proof.
  intros H. unfold window.
  assert (d = -2 \/ d = -1 \/ d = 0 \/ d = 1 \/ d = 2) as [->|[->|[->|[->| ->]]]]
    by lia; cbn; tauto.
Qed.

Lemma gridShape_empty : gridShape emptyGrid.
Proof.
  unfold gridShape, emptyGrid. split.
  - apply length_replicate.
  - apply Forall_replicate, length_replicate.
Qed.

Lemma gridShape_insert (g : grid_t) (p : point) :
  gridShape g -> gridShape (insertIntoGrid g p).
Proof.
  intros [Hrows Hcols]. unfold insertIntoGrid. cbv zeta.
  destruct (_ && _); [|now split]. split.
  - now rewrite length_alter.
  - apply Forall_alter; [exact Hcols|].
    intros row _ Hrow. now rewrite length_insert.
Qed.

Lemma cell_in_shape (g : grid_t) (y x : Z) :
  gridShape g -> 0 <= y < gridRows -> 0 <= x < gridCols ->
  exists row c, g !! Z.to_nat y = Some row /\ row !! Z.to_nat x = Some c
                /\ cell g y x = c.
Proof.
  intros [Hrows Hcols] Hy Hx.
  destruct (lookup_lt_is_Some_2 g (Z.to_nat y)) as [row Hrow]; [lia|].
  assert (Hlen : length row = Z.to_nat gridCols).
  { rewrite Forall_lookup in Hcols. exact (Hcols _ _ Hrow). }
  destruct (lookup_lt_is_Some_2 row (Z.to_nat x)) as [c Hc]; [lia|].
  exists row, c. repeat split; try assumption.
  unfold cell. rewrite Hrow. cbn. rewrite Hc. reflexivity.
Qed.

(** After [insertIntoGrid] the cell of an in-bounds point holds it. *)
Lemma cell_insert_same (g : grid_t) (p : point) :
  gridShape g -> isInBounds p = true ->
  cell (insertIntoGrid g p) (gridIndex (py p)) (gridIndex (px p)) = Some p.
Proof.
  intros Hg Hb. apply isInBounds_spec in Hb as [Hx Hy].
  pose proof (gridIndex_cols _ Hx) as Hc. pose proof (gridIndex_rows _ Hy) as Hr.
  destruct (cell_in_shape g _ _ Hg Hr Hc) as (row & c & Hrow & Hcell & _).
  unfold insertIntoGrid. cbv zeta.
  replace (_ && _) with true by lia.
  unfold cell. rewrite list_lookup_alter_eq, Hrow. cbn.
  rewrite list_lookup_insert_eq by (apply lookup_lt_is_Some_1; eauto).
  reflexivity.
Qed.

(** Every other cell is left as it was. *)
Lemma cell_insert_other (g : grid_t) (p : point) (y x : Z) :
  0 <= y -> 0 <= x ->
  (y, x) <> (gridIndex (py p), gridIndex (px p)) ->
  cell (insertIntoGrid g p) y x = cell g y x.
Proof.
  intros Hy Hx Hne. unfold insertIntoGrid. cbv zeta.
  destruct (_ && _) eqn:E; [|reflexivity]. unfold cell.
  destruct (Z.eq_dec y (gridIndex (py p))) as [->|Hny].
  - rewrite list_lookup_alter_eq.
    destruct (g !! Z.to_nat (gridIndex (py p))) as [row|]; [|reflexivity]. cbn.
    rewrite list_lookup_insert_ne; [reflexivity|].
    intros Heq. apply Hne. f_equal. lia.
  - rewrite list_lookup_alter_ne by lia. reflexivity.
Qed.

(** What a negative [hasNearbyPoints] has checked: every point stored in
    a cell of the window is at least [minDistance] away. *)
Lemma hasNearbyPoints_false (g : grid_t) (q e : point) (y x : Z) :
  hasNearbyPoints g q = false ->
  Z.abs (x - gridIndex (px q)) <= 2 -> Z.abs (y - gridIndex (py q)) <= 2 ->
  0 <= y < gridRows -> 0 <= x < gridCols ->
  cell g y x = Some e ->
  minDistance ^ 2 <= dist2 (px q) (py q) (px e) (py e).
Proof.
  intros H Hdx Hdy Hy Hx Hcell. unfold hasNearbyPoints in H. cbv zeta in H.
  rewrite existsb_false in H.
  specialize (H (y - gridIndex (py q)) (window_In _ Hdy)). cbv beta in H.
  rewrite existsb_false in H.
  specialize (H (x - gridIndex (px q)) (window_In _ Hdx)). cbv beta in H.
  replace (gridIndex (py q) + (y - gridIndex (py q))) with y in H by lia.
  replace (gridIndex (px q) + (x - gridIndex (px q))) with x in H by lia.
  replace (_ && _) with true in H by lia.
  rewrite Hcell in H. apply sqrt_lt_spec in H. unfold minDistance in *. lia.
Qed.

(** Two in-bounds points of one cell are closer than [minDistance]. *)
Lemma same_cell_close (p q : point) :
  isInBounds p = true -> isInBounds q = true ->
  gridIndex (px p) = gridIndex (px q) -> gridIndex (py p) = gridIndex (py q) ->
  dist2 (px q) (py q) (px p) (py p) < minDistance ^ 2.
Proof.
  intros Hp Hq Ex Ey.
  apply isInBounds_spec in Hp as [Hpx Hpy]. apply isInBounds_spec in Hq as [Hqx Hqy].
  unfold gridWidth, gridHeight in *.
  assert (Hx : Z.abs (px p - px q) <= 3) by (apply cellSpread; [lia|lia|exact Ex]).
  assert (Hy : Z.abs (py p - py q) <= 3) by (apply cellSpread; [lia|lia|exact Ey]).
  unfold dist2, minDistance. nia.
Qed.

(** ** Python indexing *)

Lemma py_getitem_in_range {A : Type} (l : list A) (i : Z) :
  0 <= i < Z.of_nat (length l) ->
  exists x, py_getitem l i = Some x /\ l !! Z.to_nat i = Some x.
Proof.
  intros Hi. unfold py_getitem. cbv zeta.
  replace ((0 <=? i) && (i <? Z.of_nat (length l))) with true by lia.
  destruct (lookup_lt_is_Some_2 l (Z.to_nat i)) as [x Hx]; [lia|].
  exists x. now rewrite Hx.
Qed.

Lemma py_pop_in_range {A : Type} (l : list A) (i : Z) :
  0 <= i < Z.of_nat (length l) -> py_pop l i = Some (delete (Z.to_nat i) l).
Proof.
  intros Hi. unfold py_pop. cbv zeta.
  now replace ((0 <=? i) && (i <? Z.of_nat (length l))) with true by lia.
Qed.

Lemma iterationsRun_app (a b : list line) :
  iterationsRun (a ++ b) = iterationsRun a + iterationsRun b.
Proof. unfold iterationsRun. rewrite filter_app, length_app. lia. Qed.

Lemma dist2_sym (ax ay bx by_ : Z) : dist2 ax ay bx by_ = dist2 bx by_ ax ay.
Proof. unfold dist2. ring. Qed.

(** ** The loops of the script *)

(** The initial point, when one is found, is in bounds and outside every
    zone. *)
Lemma findInitial_sound (n : nat) (r r' : SeededRandom.t) (c : point) :
  findInitial n r = (Some c, r') ->
  isInBounds c = true /\ isInExcludedZone c = false.
Proof.
  revert r. induction n as [|n IH]; intros r; cbn [findInitial].
  - discriminate.
  - pose proof (next_range r) as [Hu0 Hu1].
    destruct (SeededRandom.next r) as [u r1]. cbn [fst] in Hu0, Hu1.
    pose proof (next_range r1) as [Hv0 Hv1].
    destruct (SeededRandom.next r1) as [v r2]. cbn [fst] in Hv0, Hv1.
    set (cand := Point _ _).
    destruct (isInExcludedZone cand) eqn:Ez; cbn [negb].
    + apply IH.
    + intros [= <- <-]. split; [|exact Ez]. subst cand.
      apply isInBounds_spec. cbn [px py]. split.
      * apply py_int_scaled; [assumption|assumption|reflexivity].
      * apply py_int_scaled; [assumption|assumption|reflexivity].
Qed.

(** An accepted candidate has passed the three tests. *)
Lemma tryPlace_placed (n : nat) (i : Z) (p0 : point) (g : grid_t)
    (r : SeededRandom.t) (rej : rejections) (c : point) (k : Z)
    (r' : SeededRandom.t) :
  tryPlace n i p0 g r rej = Placed c k r' ->
  isInBounds c = true /\ isInExcludedZone c = false
  /\ hasNearbyPoints g c = false
  /\ i <= k < i + Z.of_nat n.
Proof.
  revert i r rej. induction n as [|n IH]; intros i r rej;
    cbn [tryPlace]; [discriminate|].
  destruct (SeededRandom.next r) as [u r1].
  destruct (SeededRandom.next r1) as [v r2].
  destruct (isInBounds (propose p0 u v)) eqn:Eb; cbn [negb].
  2: { intros H. apply IH in H. intuition lia. }
  destruct (isInExcludedZone (propose p0 u v)) eqn:Ez.
  { intros H. apply IH in H. intuition lia. }
  destruct (hasNearbyPoints g (propose p0 u v)) eqn:En.
  { intros H. apply IH in H. intuition lia. }
  intros [= <- <- <-]. repeat split; try assumption; lia.
Qed.

(** When every attempt is rejected, each one has incremented exactly one
    counter. *)
Lemma tryPlace_exhausted (n : nat) (i : Z) (p0 : point) (g : grid_t)
    (r : SeededRandom.t) (rej rej' : rejections) (r' : SeededRandom.t) :
  tryPlace n i p0 g r rej = Exhausted rej' r' ->
  bounds rej <= bounds rej' /\ excluded rej <= excluded rej'
  /\ nearby rej <= nearby rej'
  /\ bounds rej' + excluded rej' + nearby rej'
     = bounds rej + excluded rej + nearby rej + Z.of_nat n.
Proof.
  revert i r rej. induction n as [|n IH]; intros i r rej;
    cbn [tryPlace].
  - intros [= <- <-]. lia.
  - destruct (SeededRandom.next r) as [u r1].
    destruct (SeededRandom.next r1) as [v r2].
    destruct (isInBounds (propose p0 u v)); cbn [negb].
    2: { intros H. apply IH in H. cbn [bounds excluded nearby] in H. lia. }
    destruct (isInExcludedZone (propose p0 u v)).
    { intros H. apply IH in H. cbn [bounds excluded nearby] in H. lia. }
    destruct (hasNearbyPoints g (propose p0 u v)).
    { intros H. apply IH in H. cbn [bounds excluded nearby] in H. lia. }
    discriminate.
Qed.

(** The two ways an iteration goes, and that it raises nothing. *)
Lemma iterationBody_cases (st : state) :
  loopCondition st = true ->
  exists (idx : nat) (point0 : point) (r : SeededRandom.t),
    activeList st !! idx = Some point0
    /\ let out := stdout st ++
                  [PIteration (iteration st + 1);
                   PSizes (length (activeList st)) (length (points st));
                   PSelected point0] in
       ((exists c k,
           isInBounds c = true /\ isInExcludedZone c = false
           /\ hasNearbyPoints (grid st) c = false
           /\ 0 <= k < Z.of_nat maxAttempts
           /\ iterationBody st
              = inr (State r (insertIntoGrid (grid st) c) (points st ++ [c])
                       (activeList st ++ [c]) (iteration st + 1)
                       (out ++ [PFound c (k + 1); PBlank])))
        \/ (exists b e n,
              0 <= b /\ 0 <= e /\ 0 <= n /\ b + e + n = Z.of_nat maxAttempts
              /\ iterationBody st
                 = inr (State r (grid st) (points st)
                          (delete idx (activeList st)) (iteration st + 1)
                          (out ++ [PFailed; PRejections b e n; PBlank])))).
Proof.
  intros Hc. unfold loopCondition in Hc. apply andb_prop in Hc as [Ha Hp].
  unfold iterationBody. cbv zeta.
  pose proof (next_range (rng st)) as [Hu0 Hu1].
  destruct (SeededRandom.next (rng st)) as [u r1]. cbn [fst] in Hu0, Hu1.
  set (idx := py_int (u * inject_Z (Z.of_nat (length (activeList st))))).
  assert (Hidx : 0 <= idx < Z.of_nat (length (activeList st)))
    by (apply py_int_scaled; [assumption|assumption|lia]).
  destruct (py_getitem_in_range _ _ Hidx) as (point0 & -> & Hlook).
  rewrite (py_pop_in_range _ _ Hidx).
  destruct (tryPlace maxAttempts 0 point0 (grid st) r1 (Rejections 0 0 0))
    as [c k r2|rej r2] eqn:Et.
  - exists (Z.to_nat idx), point0, r2. split; [exact Hlook|]. left.
    apply tryPlace_placed in Et as (Hb & Hz & Hn & Hk).
    exists c, k. repeat split; try assumption; lia.
  - exists (Z.to_nat idx), point0, r2. split; [exact Hlook|]. right.
    apply tryPlace_exhausted in Et. cbn [bounds excluded nearby] in Et.
    exists (bounds rej), (excluded rej), (nearby rej).
    repeat split; try lia.
    now rewrite <- (app_assoc _ [PFailed; PRejections _ _ _] [PBlank]).
Qed.

(** *** The invariant *)

Lemma not_stopping_app (a b : list line) :
  ~ In PStopping a -> ~ In PStopping b -> ~ In PStopping (a ++ b).
Proof. intros Ha Hb H. apply in_app_or in H as [H|H]; tauto. Qed.

Lemma invariant_enter (initial : point) (r : SeededRandom.t) :
  isInBounds initial = true -> isInExcludedZone initial = false ->
  invariant (enter initial r) /\ running (enter initial r).
Proof.
  intros Hb Hz. split; [constructor|]; cbn.
  - apply gridShape_insert, gridShape_empty.
  - now constructor.
  - now constructor.
  - constructor; [|constructor]. apply cell_insert_same; [apply gridShape_empty|exact Hb].
  - intros i j p q Hij Hi Hj _. apply lookup_lt_Some in Hi, Hj. cbn in Hi, Hj. lia.
  - constructor; [now left|constructor].
  - lia.
  - lia.
  - reflexivity.
  - repeat constructor.
  - split; [cbn; lia|]. cbn. intros [H|[H|[]]]; discriminate.
Qed.

(** A candidate accepted against the grid is at least [minDistance] from
    every placed point in its window, and its cell is free. *)
Lemma accepted_far (st : state) (c p : point) :
  invariant st -> isInBounds c = true ->
  hasNearbyPoints (grid st) c = false ->
  In p (points st) -> inWindow p c ->
  minDistance ^ 2 <= dist2 (px p) (py p) (px c) (py c).
Proof.
  intros Hinv Hb Hn Hp [Hwx Hwy].
  apply list_elem_of_In, list_elem_of_lookup in Hp as [i Hi].
  pose proof (proj1 (Forall_lookup _ _) (inv_bounds _ Hinv) _ _ Hi) as Hpb.
  pose proof (proj1 (Forall_lookup _ _) (inv_grid _ Hinv) _ _ Hi) as Hpg.
  cbv beta in Hpb, Hpg. apply isInBounds_spec in Hpb as [Hx Hy].
  rewrite dist2_sym.
  apply (hasNearbyPoints_false (grid st) c p _ _ Hn Hwx Hwy);
    [now apply gridIndex_rows|now apply gridIndex_cols|exact Hpg].
Qed.

Lemma accepted_cell_free (st : state) (c p : point) :
  invariant st -> isInBounds c = true ->
  hasNearbyPoints (grid st) c = false ->
  In p (points st) ->
  (gridIndex (py p), gridIndex (px p)) <> (gridIndex (py c), gridIndex (px c)).
Proof.
  intros Hinv Hb Hn Hp [= Ey Ex].
  assert (Hw : inWindow p c) by (unfold inWindow; rewrite Ex, Ey; lia).
  pose proof (accepted_far st c p Hinv Hb Hn Hp Hw) as Hfar.
  apply list_elem_of_In, list_elem_of_lookup in Hp as [i Hi].
  pose proof (proj1 (Forall_lookup _ _) (inv_bounds _ Hinv) _ _ Hi) as Hpb.
  cbv beta in Hpb.
  pose proof (same_cell_close p c Hpb Hb Ex Ey) as Hclose.
  rewrite dist2_sym in Hclose. lia.
Qed.

Lemma invariant_placed (st : state) (c point0 : point) (k : Z)
    (r : SeededRandom.t) :
  invariant st -> running st -> loopCondition st = true ->
  isInBounds c = true -> isInExcludedZone c = false ->
  hasNearbyPoints (grid st) c = false ->
  invariant
    (State r (insertIntoGrid (grid st) c) (points st ++ [c])
       (activeList st ++ [c]) (iteration st + 1)
       ((stdout st ++
         [PIteration (iteration st + 1);
          PSizes (length (activeList st)) (length (points st));
          PSelected point0]) ++ [PFound c (k + 1); PBlank])).
Proof.
  intros Hinv [Hrun _] Hc Hb Hz Hn.
  unfold loopCondition in Hc. apply andb_prop in Hc as [Ha Hp].
  pose proof (inv_iteration _ Hinv) as Hit.
  constructor; cbn [grid points activeList iteration stdout].
  - apply gridShape_insert, (inv_shape _ Hinv).
  - apply Forall_app. split; [apply (inv_bounds _ Hinv)|now constructor].
  - apply Forall_app. split; [apply (inv_zones _ Hinv)|now constructor].
  - apply Forall_app. split.
    + apply Forall_lookup. intros i p Hi.
      pose proof (proj1 (Forall_lookup _ _) (inv_bounds _ Hinv) _ _ Hi) as Hpb.
      pose proof (proj1 (Forall_lookup _ _) (inv_grid _ Hinv) _ _ Hi) as Hpg.
      cbv beta in Hpb, Hpg. rewrite <- Hpg.
      apply isInBounds_spec in Hpb as [Hx Hy].
      apply cell_insert_other.
      * now apply gridIndex_rows.
      * now apply gridIndex_cols.
      * apply (accepted_cell_free st c p Hinv Hb Hn).
        apply list_elem_of_In, list_elem_of_lookup. eauto.
    + constructor; [|constructor].
      apply cell_insert_same; [apply (inv_shape _ Hinv)|exact Hb].
  - intros i j p q Hij Hi Hj Hw.
    apply lookup_app_Some in Hj as [Hj|[Hlen Hj]].
    + rewrite lookup_app_l in Hi by (apply lookup_lt_Some in Hj; lia).
      exact (inv_far _ Hinv i j p q Hij Hi Hj Hw).
    + destruct (j - length (points st))%nat as [|m] eqn:Em; [|now destruct m].
      cbn in Hj. injection Hj as <-.
      rewrite lookup_app_l in Hi by lia.
      apply (accepted_far st c p Hinv Hb Hn); [|exact Hw].
      apply list_elem_of_In, list_elem_of_lookup. eauto.
  - apply Forall_app. split.
    + eapply Forall_impl; [apply (inv_active _ Hinv)|].
      intros p Hin. cbv beta in *. apply in_or_app. now left.
    + constructor; [|constructor]. apply in_or_app. right. now left.
  - rewrite length_app. cbn [length]. pose proof (inv_size _ Hinv). lia.
  - lia.
  - rewrite !iterationsRun_app, (inv_count _ Hinv).
    change (iterationsRun [PIteration (iteration st + 1);
                           PSizes (length (activeList st)) (length (points st));
                           PSelected point0]) with 1.
    match goal with |- _ + _ + ?t = _ => change t with 0 end. lia.
  - apply Forall_app. split; [apply Forall_app; split|].
    + apply (inv_lines _ Hinv).
    + repeat (apply Forall_cons_2; [cbn; lia || exact I|]). apply Forall_nil_2.
    + repeat (apply Forall_cons_2; [exact I|]). apply Forall_nil_2.
Qed.

Lemma invariant_failed (st : state) (idx : nat) (point0 : point)
    (b e n : Z) (r : SeededRandom.t) :
  invariant st -> running st -> loopCondition st = true ->
  0 <= b -> 0 <= e -> 0 <= n -> b + e + n = Z.of_nat maxAttempts ->
  invariant
    (State r (grid st) (points st) (delete idx (activeList st))
       (iteration st + 1)
       ((stdout st ++
         [PIteration (iteration st + 1);
          PSizes (length (activeList st)) (length (points st));
          PSelected point0]) ++ [PFailed; PRejections b e n; PBlank])).
Proof.
  intros Hinv [Hrun _] Hc Hb0 He0 Hn0 Hsum.
  unfold loopCondition in Hc. apply andb_prop in Hc as [Ha Hp].
  pose proof (inv_iteration _ Hinv) as Hit.
  constructor; cbn [grid points activeList iteration stdout];
    try solve [apply Hinv].
  - apply Forall_delete, (inv_active _ Hinv).
  - lia.
  - rewrite !iterationsRun_app, (inv_count _ Hinv).
    change (iterationsRun [PIteration (iteration st + 1);
                           PSizes (length (activeList st)) (length (points st));
                           PSelected point0]) with 1.
    match goal with |- _ + _ + ?t = _ => change t with 0 end. lia.
  - apply Forall_app. split; [apply Forall_app; split|].
    + apply (inv_lines _ Hinv).
    + repeat (apply Forall_cons_2; [cbn; lia || exact I|]). apply Forall_nil_2.
    + repeat (apply Forall_cons_2; [cbn; lia || exact I|]). apply Forall_nil_2.
Qed.

(** One iteration: it raises nothing, keeps the invariant, counts itself,
    prints no truncation notice and uses up one unit of the variant. *)
Lemma iterationBody_invariant (st : state) :
  invariant st -> running st -> loopCondition st = true ->
  exists st',
    iterationBody st = inr st'
    /\ invariant st'
    /\ iteration st' = iteration st + 1
    /\ ~ In PStopping (stdout st')
    /\ variant st' = variant st - 1.
Proof.
  intros Hinv Hrun Hc.
  destruct (iterationBody_cases st Hc) as (idx & point0 & r & Hlook & Hcases).
  cbv zeta in Hcases.
  assert (Hnostop : forall tail,
            ~ In PStopping tail ->
            ~ In PStopping
                ((stdout st ++
                  [PIteration (iteration st + 1);
                   PSizes (length (activeList st)) (length (points st));
                   PSelected point0]) ++ tail)).
  { intros tail Ht. apply not_stopping_app; [apply not_stopping_app|exact Ht].
    - apply Hrun.
    - cbn. intros [H|[H|[H|[]]]]; discriminate. }
  destruct Hcases as [(c & k & Hb & Hz & Hn & Hk & ->)|(b & e & n & Hb & He & Hn & Hs & ->)].
  - eexists. split; [reflexivity|]. split; [|split; [|split]].
    + now apply invariant_placed.
    + reflexivity.
    + cbn [stdout]. apply Hnostop. cbn. intros [H|[H|[]]]; discriminate.
    + unfold variant. cbn [points activeList]. rewrite !length_app. cbn [length]. lia.
  - eexists. split; [reflexivity|]. split; [|split; [|split]].
    + now apply invariant_failed.
    + reflexivity.
    + cbn [stdout]. apply Hnostop. cbn. intros [H|[H|[H|[]]]]; discriminate.
    + unfold variant. cbn [points activeList].
      rewrite length_delete by eauto.
      apply lookup_lt_Some in Hlook. lia.
Qed.

(** *** The main loop *)

Lemma invariant_print (l : line) (st : state) :
  invariant st -> isHeader l = false -> lineOk l -> invariant (print l st).
Proof.
  intros Hinv Hh Hl. constructor; cbn [print grid points activeList iteration stdout];
    try solve [apply Hinv].
  - rewrite iterationsRun_app, (inv_count _ Hinv).
    destruct l; try discriminate Hh;
      match goal with |- _ + ?t = _ => change t with 0 end; lia.
  - apply Forall_app. split; [apply (inv_lines _ Hinv)|].
    apply Forall_cons_2; [exact Hl|apply Forall_nil_2].
Qed.

Lemma stopped_print (l : line) (st : state) :
  l <> PStopping -> stopped st -> stopped (print l st).
Proof.
  intros Hl (H1 & H2 & H3). unfold stopped.
  cbn [print points activeList iteration stdout]. repeat split; try assumption.
  - intros H. apply H2. apply in_app_or in H as [H|[H|[]]]; [exact H|congruence].
  - intros H. apply in_or_app. left. now apply H2.
Qed.

Lemma invariant_report (st : state) :
  invariant st -> stopped st -> invariant (report st) /\ stopped (report st).
Proof.
  intros Hinv Hs. unfold report. split.
  - apply invariant_print; [|reflexivity|exact I].
    apply invariant_print; [exact Hinv|reflexivity|exact I].
  - apply stopped_print; [discriminate|].
    apply stopped_print; [discriminate|exact Hs].
Qed.

(** Leaving the loop by its condition. *)
Lemma stopped_by_condition (st : state) :
  invariant st -> running st -> loopCondition st = false -> stopped st.
Proof.
  intros Hinv [Hit Hns] Hc. unfold stopped. repeat split.
  - lia.
  - tauto.
  - lia.
  - unfold loopCondition in Hc. apply andb_false_iff in Hc as [Hc|Hc].
    + right. left. apply Z.ltb_ge in Hc. destruct (activeList st) as [|a l]; [reflexivity|].
      cbn [length] in Hc. lia.
    + left. apply Z.ltb_ge in Hc. pose proof (inv_size _ Hinv). lia.
Qed.

(** Leaving the loop by the cap. *)
Lemma stopped_by_cap (st : state) :
  iteration st = 21 -> stopped (print PStopping st).
Proof.
  intros Hit. unfold stopped. cbn [print points activeList iteration stdout].
  repeat split; try lia.
  intros _. apply in_or_app. right. now left.
Qed.

(** Whatever the loop returns is a state that satisfies the invariant and
    was left for one of the three reasons; the loop raises nothing. *)
Lemma mainLoop_sound (fuel : nat) (st : state)
    (res : exn * list line + state) :
  invariant st -> running st -> mainLoop fuel st = Some res ->
  exists st', res = inr st' /\ invariant st' /\ stopped st'.
Proof.
  revert st. induction fuel as [|fuel IH]; intros st Hinv Hrun; cbn [mainLoop].
  - destruct (loopCondition st) eqn:Hc; [discriminate|].
    intros [= <-]. exists st. split; [reflexivity|]. split; [exact Hinv|].
    now apply stopped_by_condition.
  - destruct (loopCondition st) eqn:Hc.
    + destruct (iterationBody_invariant st Hinv Hrun Hc)
        as (st1 & -> & Hinv1 & Hit1 & Hns1 & _).
      destruct (20 <? iteration st1) eqn:Hcap.
      * intros [= <-]. exists (print PStopping st1). split; [reflexivity|]. split.
        -- apply invariant_print; [exact Hinv1|reflexivity|exact I].
        -- apply stopped_by_cap. destruct Hrun. lia.
      * apply IH; [exact Hinv1|]. split; [lia|exact Hns1].
    + intros [= <-]. exists st. split; [reflexivity|]. split; [exact Hinv|].
      now apply stopped_by_condition.
Qed.

(** The loop returns as soon as the fuel covers the iterations the cap
    still allows. *)
Lemma mainLoop_terminates (fuel : nat) (st : state) :
  invariant st -> running st -> 21 <= Z.of_nat fuel + iteration st ->
  exists res, mainLoop fuel st = Some res.
Proof.
  revert st. induction fuel as [|fuel IH]; intros st Hinv Hrun Hfuel;
    cbn [mainLoop].
  - destruct Hrun. lia.
  - destruct (loopCondition st) eqn:Hc; [|eauto].
    destruct (iterationBody_invariant st Hinv Hrun Hc)
      as (st1 & -> & Hinv1 & Hit1 & Hns1 & _).
    destruct (20 <? iteration st1) eqn:Hcap; [eauto|].
    apply IH; [exact Hinv1|split; [lia|exact Hns1]|lia].
Qed.

(** *** Executions *)




(** What the loop function returns is reached by the transitions. *)
Lemma mainLoop_steps (fuel : nat) (st : state)
    (res : exn * list line + state) :
  mainLoop fuel st = Some res ->
  exists n, steps n (Looping st) (Stopped (outcomeOf res)).
Proof.
  revert st. induction fuel as [|fuel IH]; intros st; cbn [mainLoop].
  - destruct (loopCondition st) eqn:Hc; [discriminate|]. intros [= <-].
    exists 1%nat. cbn [outcomeOf].
    eapply steps_cons; [apply step_exit, Hc|apply steps_refl].
  - destruct (loopCondition st) eqn:Hc.
    + destruct (iterationBody st) as [[e out]|st1] eqn:Hb.
      * intros [= <-]. exists 1%nat. cbn [outcomeOf].
        eapply steps_cons; [apply step_raise; eassumption|apply steps_refl].
      * destruct (20 <? iteration st1) eqn:Hcap.
        -- intros [= <-]. exists 1%nat. cbn [outcomeOf].
           eapply steps_cons; [apply step_cap; [eassumption|eassumption|lia]|].
           apply steps_refl.
        -- intros H. apply IH in H as [n Hn]. exists (S n).
           eapply steps_cons; [apply step_next; [eassumption|eassumption|lia]|].
           exact Hn.
    + intros [= <-]. exists 1%nat. cbn [outcomeOf].
      eapply steps_cons; [apply step_exit, Hc|apply steps_refl].
Qed.

Lemma run_execution (fuel : nat) (seed : Z) (o : outcome) :
  run fuel seed = Some o -> execution seed o.
Proof.
  unfold run, execution, start.
  destruct (findInitial 1000 (SeededRandom.init seed)) as [[initial|] r].
  - destruct (mainLoop fuel (enter initial r)) as [res|] eqn:Hl; [|discriminate].
    intros H. apply mainLoop_steps in Hl as [n Hn]. exists n.
    replace o with (outcomeOf res); [exact Hn|].
    destruct res as [[e out]|st]; cbn; congruence.
  - intros [= <-]. exists 0%nat. constructor.
Qed.

(** With 21 units of fuel or more the script returns. *)
Lemma run_terminates (k : nat) (seed : Z) :
  exists o, run (21 + k) seed = Some o.
Proof.
  unfold run.
  destruct (findInitial 1000 (SeededRandom.init seed)) as [[initial|] r] eqn:Hf;
    [|eauto].
  apply findInitial_sound in Hf as [Hb Hz].
  destruct (invariant_enter initial r Hb Hz) as [Hinv Hrun].
  destruct (mainLoop_terminates (21 + k) _ Hinv Hrun) as [res Hres];
    [cbn [enter iteration]; lia|].
  rewrite Hres. destruct res as [[e out]|st]; eauto.
Qed.

(** A finished run ends in a state that satisfies the invariant and was
    left for one of the three reasons; the only exception a run raises is
    the [TypeError] of a failed search for the initial point. *)
Lemma run_sound (fuel : nat) (seed : Z) (o : outcome) :
  run fuel seed = Some o ->
  match o with
  | Finished st => invariant st /\ stopped st
  | Raised e out =>
      e = TypeError /\ out = []
      /\ fst (findInitial 1000 (SeededRandom.init seed)) = None
  end.
Proof.
  unfold run.
  destruct (findInitial 1000 (SeededRandom.init seed)) as [[initial|] r] eqn:Hf.
  - apply findInitial_sound in Hf as [Hb Hz].
    destruct (invariant_enter initial r Hb Hz) as [Hinv Hrun].
    destruct (mainLoop fuel (enter initial r)) as [res|] eqn:Hl; [|discriminate].
    destruct (mainLoop_sound _ _ _ Hinv Hrun Hl) as (st' & -> & Hinv' & Hs').
    intros [= <-]. now apply invariant_report.
  - intros [= <-]. cbn. auto.
Qed.

(** *** The properties of the specification *)

(** The pairs of placed points outside each other's window are further
    apart than [minDistance] as well: with this cell size the window misses
    no conflict. *)
Lemma outside_window_far (p q : point) :
  isInBounds p = true -> isInBounds q = true -> ~ inWindow p q ->
  minDistance ^ 2 <= dist2 (px p) (py p) (px q) (py q).
Proof.
  intros Hp Hq Hw.
  apply isInBounds_spec in Hp as [Hpx Hpy]. apply isInBounds_spec in Hq as [Hqx Hqy].
  unfold gridWidth, gridHeight in *. unfold inWindow in Hw.
  assert (H : 3 <= Z.abs (gridIndex (px p) - gridIndex (px q))
              \/ 3 <= Z.abs (gridIndex (py p) - gridIndex (py q))) by lia.
  unfold dist2, minDistance. destruct H as [H|H].
  - assert (5 <= Z.abs (px p - px q)) by (apply cellSpread; [lia|lia|exact H]). nia.
  - assert (5 <= Z.abs (py p - py q)) by (apply cellSpread; [lia|lia|exact H]). nia.
Qed.

Lemma far_euclid (ax ay bx by_ : Z) :
  minDistance ^ 2 <= dist2 ax ay bx by_ ->
  (IZR minDistance <= euclid ax ay bx by_)%R.
Proof.
  intros H. apply sqrt_lt_false_euclid, sqrt_lt_spec. right.
  unfold minDistance in *. lia.
Qed.

(** C2.  In the final list of placed points, two points whose grid cells
    are within the 5x5 search window of each other are at Euclidean
    distance at least [minDistance] (equality allowed). *)
Theorem C2_distance_invariant (fuel : nat) (seed : Z) (st : state)
    (i j : nat) (p q : point) :
  run fuel seed = Some (Finished st) ->
  (i < j)%nat -> points st !! i = Some p -> points st !! j = Some q ->
  inWindow p q ->
  (IZR minDistance <= euclid (px p) (py p) (px q) (py q))%R.
Proof.
  intros Hrun Hij Hi Hj Hw. apply run_sound in Hrun as [Hinv _].
  apply far_euclid. exact (inv_far _ Hinv i j p q Hij Hi Hj Hw).
Qed.

(** X15.  Every two placed points are at Euclidean distance at least
    [minDistance], whether their cells are in each other's window or not
    (together with [outside_window_far]: with this cell size the 5x5
    window misses no conflict). *)
Lemma placed_points_far (fuel : nat) (seed : Z) (st : state)
    (i j : nat) (p q : point) :
  run fuel seed = Some (Finished st) ->
  (i < j)%nat -> points st !! i = Some p -> points st !! j = Some q ->
  (IZR minDistance <= euclid (px p) (py p) (px q) (py q))%R.
Proof.
  intros Hrun Hij Hi Hj. apply run_sound in Hrun as [Hinv _].
  apply far_euclid.
  assert (Hw : inWindow p q \/ ~ inWindow p q) by (unfold inWindow; lia).
  destruct Hw as [Hw|Hw].
  - exact (inv_far _ Hinv i j p q Hij Hi Hj Hw).
  - apply outside_window_far; [| |exact Hw].
    + exact (proj1 (Forall_lookup _ _) (inv_bounds _ Hinv) _ _ Hi).
    + exact (proj1 (Forall_lookup _ _) (inv_bounds _ Hinv) _ _ Hj).
Qed.



(** C6.  Every placed point is inside the domain. *)
Theorem C6_bounds_invariant (fuel : nat) (seed : Z) (st : state) (p : point) :
  run fuel seed = Some (Finished st) -> In p (points st) ->
  0 <= px p < gridWidth /\ 0 <= py p < gridHeight.
Proof.
  intros Hrun Hp. apply run_sound in Hrun as [Hinv _].
  pose proof (inv_bounds _ Hinv) as Hb. rewrite List.Forall_forall in Hb.
  apply isInBounds_spec, Hb, Hp.
Qed.


(** C8.  The three counters printed for a failed step are non-negative
    and sum to [maxAttempts] = 50. *)
Theorem C8_rejections_sum (fuel : nat) (seed : Z) (o : outcome) (b e n : Z) :
  run fuel seed = Some o -> In (PRejections b e n) (printed o) ->
  b + e + n = 50 /\ 0 <= b /\ 0 <= e /\ 0 <= n.
Proof.
  intros Hrun Hin. apply run_sound in Hrun. destruct o as [st|ex out].
  - destruct Hrun as [Hinv _].
    pose proof (inv_lines _ Hinv) as Hl. rewrite List.Forall_forall in Hl.
    specialize (Hl _ Hin). cbn in Hl. unfold maxAttempts in Hl. lia.
  - destruct Hrun as (_ & -> & _). destruct Hin.
Qed.

(** C9.  The script terminates for every seed, zone list and candidate
    function: 21 iterations of fuel are enough for [run] to return, and
    what it returns is the outcome of an execution. *)
Theorem C9_termination (seed : Z) (k : nat) :
  exists o, run (21 + k) seed = Some o /\ execution seed o.
Proof.
  destruct (run_terminates k seed) as [o Ho].
  exists o. split; [exact Ho|]. exact (run_execution _ _ _ Ho).
Qed.



(** *** Further invariants of the run *)

(** The state an iteration leaves, in its two forms. *)
Lemma iterationBody_result (st st' : state) :
  loopCondition st = true -> iterationBody st = inr st' ->
  exists (idx : nat) (point0 : point) (r : SeededRandom.t),
    activeList st !! idx = Some point0
    /\ let out := stdout st ++
                  [PIteration (iteration st + 1);
                   PSizes (length (activeList st)) (length (points st));
                   PSelected point0] in
       ((exists c k,
           isInBounds c = true /\ isInExcludedZone c = false
           /\ hasNearbyPoints (grid st) c = false
           /\ 0 <= k < Z.of_nat maxAttempts
           /\ st' = State r (insertIntoGrid (grid st) c) (points st ++ [c])
                      (activeList st ++ [c]) (iteration st + 1)
                      (out ++ [PFound c (k + 1); PBlank]))
        \/ (exists b e n,
              b + e + n = Z.of_nat maxAttempts
              /\ st' = State r (grid st) (points st)
                         (delete idx (activeList st)) (iteration st + 1)
                         (out ++ [PFailed; PRejections b e n; PBlank]))).
Proof.
  intros Hc Hb.
  destruct (iterationBody_cases st Hc) as (idx & point0 & r & Hlook & Hcases).
  exists idx, point0, r. split; [exact Hlook|]. cbv zeta in *.
  destruct Hcases as [(c & k & H1 & H2 & H3 & H4 & E)|(b & e & n & _ & _ & _ & Hs & E)].
  - left. exists c, k. repeat split; try assumption; try lia. congruence.
  - right. exists b, e, n. split; [exact Hs|congruence].
Qed.

(** A property of states that every iteration and every [print] keeps
    holds when the loop is left. *)
Lemma mainLoop_preserves (P : state -> Prop) :
  (forall st st',
     invariant st -> running st -> loopCondition st = true ->
     iterationBody st = inr st' -> P st -> P st') ->
  (forall st, P st -> P (print PStopping st)) ->
  forall (fuel : nat) (st : state) (res : exn * list line + state),
    invariant st -> running st -> P st ->
    mainLoop fuel st = Some res -> exists st', res = inr st' /\ P st'.
Proof.
  intros Hbody Hprint. induction fuel as [|fuel IH]; intros st res Hinv Hrun HP;
    cbn [mainLoop].
  - destruct (loopCondition st); [discriminate|]. intros [= <-]. eauto.
  - destruct (loopCondition st) eqn:Hc; [|intros [= <-]; eauto].
    destruct (iterationBody_invariant st Hinv Hrun Hc)
      as (st1 & Hb & Hinv1 & Hit1 & Hns1 & _).
    rewrite Hb. pose proof (Hbody _ _ Hinv Hrun Hc Hb HP) as HP1.
    destruct (20 <? iteration st1) eqn:Hcap.
    + intros [= <-]. eauto.
    + apply IH; [exact Hinv1| |exact HP1]. split; [lia|exact Hns1].
Qed.

(** The same for a whole run, for a property that may mention the initial
    point. *)
Lemma run_preserves (P : point -> state -> Prop) :
  (forall p0 st st',
     invariant st -> running st -> loopCondition st = true ->
     iterationBody st = inr st' -> P p0 st -> P p0 st') ->
  (forall p0 l st,
     l = PStopping \/ (exists n, l = PFinal n) \/ (exists pts, l = PPoints pts) ->
     P p0 st -> P p0 (print l st)) ->
  (forall p0 r, isInBounds p0 = true -> isInExcludedZone p0 = false ->
                P p0 (enter p0 r)) ->
  forall (fuel : nat) (seed : Z) (st : state),
    run fuel seed = Some (Finished st) ->
    exists p0 r, findInitial 1000 (SeededRandom.init seed) = (Some p0, r)
                 /\ P p0 st.
Proof.
  intros Hbody Hprint Henter fuel seed st. unfold run.
  destruct (findInitial 1000 (SeededRandom.init seed)) as [[p0|] r] eqn:Hf;
    [|discriminate].
  pose proof (findInitial_sound _ _ _ _ Hf) as [Hb Hz].
  destruct (invariant_enter p0 r Hb Hz) as [Hinv Hrun].
  destruct (mainLoop fuel (enter p0 r)) as [res|] eqn:Hl; [|discriminate].
  destruct (mainLoop_preserves (P p0) (Hbody p0)
              (fun s => Hprint p0 PStopping s (or_introl eq_refl)) _ _ _
              Hinv Hrun (Henter p0 r Hb Hz) Hl) as (st' & -> & HP).
  intros [= <-]. exists p0, r. split; [reflexivity|].
  unfold report. apply Hprint; [right; right; eauto|].
  apply Hprint; [right; left; eauto|exact HP].
Qed.

Lemma after_next (n : nat) (r : SeededRandom.t) :
  SeededRandom.after (S n) r = SeededRandom.after n (snd (SeededRandom.next r)).
Proof. unfold SeededRandom.after. now rewrite Nat.iter_succ_r. Qed.

Lemma after_add (n m : nat) (r : SeededRandom.t) :
  SeededRandom.after (n + m) r = SeededRandom.after n (SeededRandom.after m r).
Proof. unfold SeededRandom.after. now rewrite Nat.iter_add. Qed.

Lemma cell_emptyGrid (y x : Z) : cell emptyGrid y x = None.
Proof.
  unfold cell, emptyGrid.
  destruct (replicate (Z.to_nat gridRows) _ !! Z.to_nat y) as [row|] eqn:E;
    [|reflexivity].
  apply lookup_replicate in E as [-> _]. cbn.
  destruct (replicate (Z.to_nat gridCols) _ !! Z.to_nat x) as [c|] eqn:E2;
    [|reflexivity].
  apply lookup_replicate in E2 as [-> _]. reflexivity.
Qed.

Lemma lineFits_grow (pts : list point) (c : point) (l : line) :
  lineFits pts l -> lineFits (pts ++ [c]) l.
Proof.
  destruct l; cbn [lineFits]; try tauto.
  - apply lookup_app_l_Some.
  - rewrite length_app. cbn [length]. lia.
  - intros H. apply in_or_app. now left.
  - intros [H1 H2]. split; [exact H1|]. apply in_or_app. now left.
Qed.

(** X1.  The counters of a finished run: the active pool is never larger
    than the list of placed points, between 1 and 15 points are placed, the
    number of iterations is twice the number of points, less one, less the
    size of the pool (every iteration placed a point or evicted one), and
    a run cut short by the cap has placed at least 11 points. *)
Theorem X1_counters (fuel : nat) (seed : Z) (st : state) :
  run fuel seed = Some (Finished st) ->
  (length (activeList st) <= length (points st))%nat
  /\ (1 <= length (points st) <= 15)%nat
  /\ iteration st
     = 2 * Z.of_nat (length (points st)) - 1 - Z.of_nat (length (activeList st))
  /\ (In PStopping (stdout st) -> (11 <= length (points st))%nat).
Proof.
  intros Hrun.
  destruct (run_preserves (fun _ => counted)) with (4 := Hrun)
    as (p0 & r & _ & Hle & Hit).
  - intros _ s s' Hinv Hrunning Hc Hb [Hle Hit].
    destruct (iterationBody_result s s' Hc Hb) as (idx & q & r & Hlook & Hcases).
    cbv zeta in Hcases. unfold counted.
    destruct Hcases as [(c & k & _ & _ & _ & _ & ->)|(b & e & n & _ & ->)];
      cbn [points activeList iteration].
    + rewrite !length_app. cbn [length]. lia.
    + rewrite length_delete by eauto. apply lookup_lt_Some in Hlook. lia.
  - intros _ l s _ H. exact H.
  - intros q r _ _. unfold counted. cbn. lia.
  - apply run_sound in Hrun as [Hinv (_ & Hstop & _)].
    pose proof (inv_size _ Hinv). repeat split; try assumption; try lia.
    intros Hs. apply Hstop in Hs. lia.
Qed.

(** X2.  The trace agrees with the result: the point of the first line is
    the first placed point, every selected point and every point reported
    as found is in the final list, a point is found after 1 to 50 attempts,
    and the sizes printed in a header are a pool size at most the number of
    points, itself at most the final number. *)
Theorem X2_trace_fits (fuel : nat) (seed : Z) (st : state) (l : line) :
  run fuel seed = Some (Finished st) -> In l (stdout st) ->
  lineFits (points st) l.
Proof.
  intros Hrun Hl.
  destruct (run_preserves
              (fun _ s => counted s /\ Forall (lineFits (points s)) (stdout s)))
    with (4 := Hrun) as (p0 & r & _ & _ & Hall).
  - intros _ s s' Hinv Hrunning Hc Hb [[Hle Hit] Hall].
    destruct (iterationBody_result s s' Hc Hb) as (idx & q & r & Hlook & Hcases).
    cbv zeta in Hcases.
    assert (Hq : In q (points s)).
    { pose proof (inv_active _ Hinv) as Ha. rewrite Forall_lookup in Ha.
      exact (Ha _ _ Hlook). }
    unfold counted.
    destruct Hcases as [(c & k & _ & _ & _ & Hk & ->)|(b & e & n & _ & ->)];
      cbn [points activeList iteration stdout].
    + split; [rewrite !length_app; cbn [length]; lia|].
      apply Forall_app. split; [apply Forall_app; split|].
      * eapply Forall_impl; [exact Hall|]. intros x. apply lineFits_grow.
      * apply Forall_cons_2; [exact I|]. apply Forall_cons_2.
        { cbn. rewrite length_app. cbn [length]. lia. }
        apply Forall_cons_2; [|apply Forall_nil_2].
        cbn. apply in_or_app. now left.
      * apply Forall_cons_2; [|apply Forall_cons_2; [exact I|apply Forall_nil_2]].
        cbn. split; [lia|]. apply in_or_app. right. now left.
    + split.
      { rewrite length_delete by eauto. apply lookup_lt_Some in Hlook. lia. }
      apply Forall_app. split; [apply Forall_app; split|].
      * exact Hall.
      * apply Forall_cons_2; [exact I|]. apply Forall_cons_2; [cbn; lia|].
        apply Forall_cons_2; [exact Hq|apply Forall_nil_2].
      * repeat (apply Forall_cons_2; [exact I|]). apply Forall_nil_2.
  - intros _ l' s Hl' [Hcnt Hall]. split; [exact Hcnt|].
    cbn [print points stdout]. apply Forall_app. split; [exact Hall|].
    apply Forall_cons_2; [|apply Forall_nil_2].
    destruct Hl' as [->|[[n ->]|[pts ->]]]; exact I.
  - intros q r _ _. split; [unfold counted; cbn; lia|].
    cbn [enter points stdout].
    apply Forall_cons_2; [reflexivity|]. apply Forall_cons_2; [exact I|].
    apply Forall_nil_2.
  - rewrite List.Forall_forall in Hall. exact (Hall _ Hl).
Qed.

(** X3.  At the end of a run the grid holds exactly the placed points:
    a cell holds a point if and only if that point was placed and the cell
    is the cell of its coordinates (no placed point was overwritten or
    dropped); and every point still in the active pool is a placed
    point. *)
Theorem X3_grid_reflects_points (fuel : nat) (seed : Z) (st : state) :
  run fuel seed = Some (Finished st) ->
  gridExact (grid st) (points st)
  /\ (forall p, In p (activeList st) -> In p (points st)).
Proof.
  intros Hrun. split.
  - destruct (run_preserves (fun _ s => gridExact (grid s) (points s)))
      with (4 := Hrun) as (p0 & r & _ & H); [| | |exact H].
    + intros _ s s' Hinv Hrunning Hc Hb Hex.
      destruct (iterationBody_result s s' Hc Hb) as (idx & q & r & Hlook & Hcases).
      cbv zeta in Hcases.
      destruct Hcases as [(c & k & Hcb & _ & Hcn & _ & ->)|(b & e & n & _ & ->)];
        cbn [points grid]; [|exact Hex].
      intros y x e Hy Hx.
      destruct (Z.eq_dec y (gridIndex (py c))) as [Ey|Ny];
        [destruct (Z.eq_dec x (gridIndex (px c))) as [Ex|Nx]|].
      * subst y x. rewrite (cell_insert_same _ _ (inv_shape _ Hinv) Hcb). split.
        -- intros [= <-]. split; [apply in_or_app; right; now left|auto].
        -- intros (Hin & E1 & E2). apply in_app_or in Hin as [Hin|[<-|[]]];
             [|reflexivity].
           exfalso. apply (accepted_cell_free s c e Hinv Hcb Hcn Hin). congruence.
      * rewrite cell_insert_other by (try assumption; congruence).
        rewrite (Hex y x e Hy Hx). split.
        -- intros (Hin & E1 & E2). split; [apply in_or_app; now left|auto].
        -- intros (Hin & E1 & E2). apply in_app_or in Hin as [Hin|[<-|[]]];
             [auto|congruence].
      * rewrite cell_insert_other by (try assumption; congruence).
        rewrite (Hex y x e Hy Hx). split.
        -- intros (Hin & E1 & E2). split; [apply in_or_app; now left|auto].
        -- intros (Hin & E1 & E2). apply in_app_or in Hin as [Hin|[<-|[]]];
             [auto|congruence].
    + intros _ l s _ H. exact H.
    + intros q r Hqb _. cbn [enter grid points]. intros y x e Hy Hx.
      destruct (Z.eq_dec y (gridIndex (py q))) as [Ey|Ny];
        [destruct (Z.eq_dec x (gridIndex (px q))) as [Ex|Nx]|].
      * subst y x. rewrite (cell_insert_same _ _ gridShape_empty Hqb). split.
        -- intros [= <-]. split; [now left|auto].
        -- intros ([<-|[]] & _). reflexivity.
      * rewrite cell_insert_other by (try assumption; congruence).
        rewrite cell_emptyGrid. split; [discriminate|].
        intros ([<-|[]] & E1 & E2). congruence.
      * rewrite cell_insert_other by (try assumption; congruence).
        rewrite cell_emptyGrid. split; [discriminate|].
        intros ([<-|[]] & E1 & E2). congruence.
  - apply run_sound in Hrun as [Hinv _].
    pose proof (inv_active _ Hinv) as Ha. rewrite List.Forall_forall in Ha.
    exact Ha.
Qed.


(** X5.  The inner loop draws twice per attempt: after a failed step the
    generator has advanced by exactly [2 * n] draws, and a candidate
    accepted at attempt [k] (counted from [i]) leaves it advanced by
    [2 * (k - i + 1)] draws. *)
Theorem X5_tryPlace_draws (n : nat) (i : Z) (p0 : point) (g : grid_t)
    (r : SeededRandom.t) (rej : rejections) :
  match tryPlace n i p0 g r rej with
  | Exhausted _ r' => r' = SeededRandom.after (2 * n) r
  | Placed _ k r' =>
      i <= k < i + Z.of_nat n
      /\ r' = SeededRandom.after (2 * (Z.to_nat (k - i) + 1)) r
  end.
Proof.
  revert i r rej. induction n as [|n IH]; intros i r rej; cbn [tryPlace].
  - reflexivity.
  - assert (E2 : forall m, SeededRandom.after (2 * S m) r
                 = SeededRandom.after (2 * m)
                     (snd (SeededRandom.next (snd (SeededRandom.next r))))).
    { intros m. replace (2 * S m)%nat with (S (S (2 * m))) by lia.
      now rewrite !after_next. }
    destruct (SeededRandom.next r) as [u r1]. cbn [snd] in E2.
    destruct (SeededRandom.next r1) as [v r2]. cbn [snd] in E2.
    assert (Hrec : forall rej',
              match tryPlace n (i + 1) p0 g r2 rej' with
              | Exhausted _ r' => r' = SeededRandom.after (2 * S n) r
              | Placed _ k r' =>
                  i <= k < i + Z.of_nat (S n)
                  /\ r' = SeededRandom.after (2 * (Z.to_nat (k - i) + 1)) r
              end).
    { intros rej'. specialize (IH (i + 1) r2 rej').
      destruct (tryPlace n (i + 1) p0 g r2 rej') as [c k r'|rej'' r'].
      - destruct IH as [Hk ->]. split; [lia|].
        replace (Z.to_nat (k - i) + 1)%nat with (S (Z.to_nat (k - (i + 1)) + 1))
          by lia.
        now rewrite E2.
      - now rewrite E2. }
    destruct (isInBounds (propose p0 u v)); cbn [negb]; [|apply Hrec].
    destruct (isInExcludedZone (propose p0 u v)); [apply Hrec|].
    destruct (hasNearbyPoints g (propose p0 u v)); [apply Hrec|].
    split; [lia|]. replace (Z.to_nat (i - i) + 1)%nat with 1%nat by lia.
    exact (eq_sym (E2 0%nat)).
Qed.

(** X6.  The search for the initial point takes the first candidate, in
    draw order, that is outside every zone: when it returns a point this is
    the candidate of some attempt [m], every earlier candidate was in a
    zone, and the generator has advanced by [2 * (m + 1)] draws; when it
    returns nothing every one of the [n] candidates was in a zone and
    [2 * n] draws were made. *)
Theorem X6_findInitial_first (n : nat) (r : SeededRandom.t) :
  match findInitial n r with
  | (Some c, r') =>
      exists m : nat,
        (m < n)%nat
        /\ c = initialCandidate (SeededRandom.after (2 * m) r)
        /\ isInExcludedZone c = false
        /\ r' = SeededRandom.after (2 * (m + 1)) r
        /\ forall j : nat, (j < m)%nat ->
             isInExcludedZone
               (initialCandidate (SeededRandom.after (2 * j) r)) = true
  | (None, r') =>
      r' = SeededRandom.after (2 * n) r
      /\ forall j : nat, (j < n)%nat ->
           isInExcludedZone
             (initialCandidate (SeededRandom.after (2 * j) r)) = true
  end.
Proof.
  revert r. induction n as [|n IH]; intros r; cbn [findInitial].
  - split; [reflexivity|]. intros j Hj. lia.
  - assert (E2 : forall m, SeededRandom.after (2 * S m) r
                 = SeededRandom.after (2 * m)
                     (snd (SeededRandom.next (snd (SeededRandom.next r))))).
    { intros m. replace (2 * S m)%nat with (S (S (2 * m))) by lia.
      now rewrite !after_next. }
    destruct (SeededRandom.next r) as [u r1] eqn:E1. cbn [snd] in E2.
    destruct (SeededRandom.next r1) as [v r2] eqn:E1'. cbn [snd] in E2.
    set (cand := Point _ _).
    assert (E0 : initialCandidate (SeededRandom.after (2 * 0) r) = cand).
    { change (SeededRandom.after (2 * 0) r) with r.
      unfold initialCandidate. now rewrite E1, E1'. }
    destruct (isInExcludedZone cand) eqn:Ez; cbn [negb].
    + specialize (IH r2).
      destruct (findInitial n r2) as [[c|] r'].
      * destruct IH as (m & Hm & Hc & Hnz & Hr & Hall). exists (S m).
        split; [lia|]. split; [now rewrite E2|]. split; [exact Hnz|].
        split; [replace (S m + 1)%nat with (S (m + 1)) by lia; now rewrite E2|].
        intros [|j] Hj; [now rewrite E0|]. rewrite E2. apply Hall. lia.
      * destruct IH as [Hr Hall]. split; [now rewrite E2|].
        intros [|j] Hj; [now rewrite E0|]. rewrite E2. apply Hall. lia.
    + exists 0%nat. split; [lia|]. split; [now rewrite E0|].
      split; [exact Ez|]. split; [exact (eq_sym (E2 0%nat))|].
      intros j Hj. lia.
Qed.

End Sampler.

(** ** The script on concrete configurations *)

(** The script as it is (seed 12345, one zone of radius 1 at (36, 24)),
    with the reference evaluation of the candidate: 15 points after 14
    iterations, no truncation notice. *)
Example default_run :
  let st := finalState (run defaultZones refPropose 21 defaultSeed) in
  run defaultZones refPropose 21 defaultSeed = Some (Finished st)
  /\ length (points st) = 15%nat /\ iteration st = 14
  /\ points st !! 0%nat = Some (Point 70 14)
  /\ points st !! 1%nat = Some (Point 67 18).
Proof. vm_compute. repeat split; reflexivity. Qed.

(** With only a strip of the domain free the cap is reached: the 21st
    iteration is run and the notice is printed. *)
Example strip_run :
  let st := finalState (run stripZones refPropose 21 defaultSeed) in
  run stripZones refPropose 21 defaultSeed = Some (Finished st)
  /\ length (points st) = 11%nat /\ iteration st = 21
  /\ In (PIteration 21) (stdout st) /\ In PStopping (stdout st).
Proof.
  vm_compute. repeat split; try reflexivity;
    repeat (first [left; reflexivity | right]).
Qed.



Lemma C2_distance_invariant_witness :
  (IZR minDistance <= euclid 70 14 67 18)%R.
Proof.
  apply (C2_distance_invariant defaultZones refPropose 21 defaultSeed
           (finalState (run defaultZones refPropose 21 defaultSeed))
           0 1 (Point 70 14) (Point 67 18)).
  - vm_compute. reflexivity.
  - lia.
  - vm_compute. reflexivity.
  - vm_compute. reflexivity.
  - split; apply Z.leb_le; vm_compute; reflexivity.
Defined.



Lemma C6_bounds_invariant_witness :
  0 <= 67 < gridWidth /\ 0 <= 18 < gridHeight.
Proof.
  apply (C6_bounds_invariant defaultZones refPropose 21 defaultSeed
           (finalState (run defaultZones refPropose 21 defaultSeed))
           (Point 67 18)).
  - vm_compute. reflexivity.
  - vm_compute. right. left. reflexivity.
Defined.


Lemma C8_rejections_sum_witness :
  29 + 21 + 0 = 50 /\ 0 <= 29 /\ 0 <= 21 /\ 0 <= 0.
Proof.
  apply (C8_rejections_sum boxedZones refPropose 21 defaultSeed
           (outcomeAt (run boxedZones refPropose 21 defaultSeed))).
  - vm_compute. reflexivity.
  - vm_compute. do 6 right. left. reflexivity.
Defined.

(** ** Further properties of the generator, the grid and the zones *)

(** The state after [n] calls, in closed form. *)
Lemma seed_after (s : Z) (n : nat) :
  SeededRandom.seed (SeededRandom.after n (SeededRandom.init s))
  = (s + Z.of_nat n * 0x6D2B79F5) mod 2 ^ 32.
Proof.
  induction n as [|n IH].
  - change (SeededRandom.after 0 (SeededRandom.init s))
      with (SeededRandom.init s).
    rewrite init_mod. cbn [SeededRandom.seed]. f_equal. lia.
  - change (SeededRandom.after (S n) (SeededRandom.init s))
      with (snd (SeededRandom.next
                   (SeededRandom.after n (SeededRandom.init s)))).
    rewrite next_unfold. cbn [snd SeededRandom.seed].
    unfold SeededRandom.spec_state. rewrite IH.
    rewrite Zplus_mod_idemp_l. f_equal. lia.
Qed.

(** X7.  The state after [n] calls of [next()] on a generator built from
    [s] is [(s + n * 0x6D2B79F5) mod 2^32], a 32-bit value. *)
Theorem X7_state_after_calls (s : Z) (n : nat) :
  SeededRandom.seed (SeededRandom.after n (SeededRandom.init s))
  = (s + Z.of_nat n * 0x6D2B79F5) mod 2 ^ 32
  /\ 0 <= SeededRandom.seed (SeededRandom.after n (SeededRandom.init s))
     < 2 ^ 32.
Proof.
  split; [apply seed_after|]. rewrite seed_after. apply mod32_range.
Qed.

(** X8.  The sequence of states has period exactly 2^32: two calls fewer
    than 2^32 apart leave different states, and 2^32 calls bring the state
    back. *)
Theorem X8_full_period (s : Z) (i j : nat) :
  (i < j)%nat -> Z.of_nat j - Z.of_nat i < 2 ^ 32 ->
  SeededRandom.seed (SeededRandom.after i (SeededRandom.init s))
  <> SeededRandom.seed (SeededRandom.after j (SeededRandom.init s))
  /\ SeededRandom.seed
       (SeededRandom.after (i + Z.to_nat (2 ^ 32)) (SeededRandom.init s))
     = SeededRandom.seed (SeededRandom.after i (SeededRandom.init s)).
Proof.
  intros Hij Hlt.
  pose proof (seed_after s i) as Hi.
  pose proof (seed_after s j) as Hj.
  pose proof (seed_after s (i + Z.to_nat (2 ^ 32))) as Hp.
  split.
  - rewrite Hi, Hj. intros E. symmetry in E.
    apply Z.cong_iff_0 in E. apply Z.mod_divide in E; [|lia].
    replace (s + Z.of_nat j * 0x6D2B79F5 - (s + Z.of_nat i * 0x6D2B79F5))
      with (0x6D2B79F5 * (Z.of_nat j - Z.of_nat i)) in E by lia.
    apply Z.gauss in E; [|reflexivity].
    apply Z.divide_pos_le in E; lia.
  - rewrite Hp, Hi. rewrite Nat2Z.inj_add, Z2Nat.id by lia.
    replace (s + (Z.of_nat i + 2 ^ 32) * 0x6D2B79F5)
      with (s + Z.of_nat i * 0x6D2B79F5 + 0x6D2B79F5 * 2 ^ 32) by lia.
    apply Z_mod_plus_full.
Qed.

(** X9.  For a coordinate [v] of the domain the index [int(v / cellSize)]
    computed in binary64 is the exact floor of [v / (5 / sqrt 2)]: it is
    the [k >= 0] with [(5 k)^2 <= 2 v^2 < (5 (k + 1))^2]. *)
Theorem X9_gridIndex_floor (v : Z) :
  0 <= v < 72 ->
  0 <= gridIndex v
  /\ (5 * gridIndex v) ^ 2 <= 2 * v ^ 2 < (5 * (gridIndex v + 1)) ^ 2.
Proof.
  intros Hv. rewrite (gridIndex_exact v Hv). unfold gridIndexExact.
  assert (Hn : 0 <= 2 * v * v) by nia.
  pose proof (Z.sqrt_spec _ Hn) as Hs. pose proof (Z.sqrt_nonneg (2 * v * v)) as H0.
  revert Hs H0. generalize (Z.sqrt (2 * v * v)). intros q Hs H0.
  pose proof (Z.mul_div_le q 5 ltac:(lia)) as Hlo.
  pose proof (Z.mul_succ_div_gt q 5 ltac:(lia)) as Hhi.
  assert (Hk : 0 <= q / 5) by (apply Z.div_pos; lia).
  revert Hlo Hhi Hk. generalize (q / 5). intros k Hlo Hhi Hk.
  split; [exact Hk|]. rewrite !Z.pow_2_r. unfold Z.succ in *.
  assert (H1 : (5 * k) * (5 * k) <= q * q) by (apply Z.mul_le_mono_nonneg; lia).
  assert (H2 : (q + 1) * (q + 1) <= (5 * (k + 1)) * (5 * (k + 1)))
    by (apply Z.mul_le_mono_nonneg; lia).
  lia.
Qed.

(** X10.  [insertIntoGrid] and the grid lookup: after the insertion of an
    in-bounds point its cell holds the point, every other cell is as before
    and the grid keeps its shape. *)
Theorem X10_insert_lookup (g : grid_t) (p : point) :
  gridShape g -> isInBounds p = true ->
  cell (insertIntoGrid g p) (gridIndex (py p)) (gridIndex (px p)) = Some p
  /\ (forall y x, 0 <= y -> 0 <= x ->
        (y, x) <> (gridIndex (py p), gridIndex (px p)) ->
        cell (insertIntoGrid g p) y x = cell g y x)
  /\ gridShape (insertIntoGrid g p).
Proof.
  intros Hg Hb. split; [now apply cell_insert_same|]. split.
  - intros y x Hy Hx Hne. now apply cell_insert_other.
  - now apply gridShape_insert.
Qed.

(** X11.  [hasNearbyPoints] misses no stored conflict: when an in-bounds
    point [p] is stored in its cell and an in-bounds candidate [q] is
    closer to it than [minDistance], the answer is [True] (the cell of [p]
    is always inside the 5x5 window of [q]). *)
Theorem X11_hasNearbyPoints_complete (g : grid_t) (p q : point) :
  isInBounds p = true -> isInBounds q = true ->
  cell g (gridIndex (py p)) (gridIndex (px p)) = Some p ->
  dist2 (px q) (py q) (px p) (py p) < minDistance ^ 2 ->
  hasNearbyPoints g q = true.
Proof.
  intros Hp Hq Hcell Hd.
  apply isInBounds_spec in Hp as [Hpx Hpy]. apply isInBounds_spec in Hq as [Hqx Hqy].
  pose proof (gridIndex_cols _ Hpx) as Hc. pose proof (gridIndex_rows _ Hpy) as Hr.
  unfold gridWidth, gridHeight in *.
  assert (Hx : Z.abs (px q - px p) <= 4) by (unfold dist2, minDistance in Hd; nia).
  assert (Hy : Z.abs (py q - py p) <= 4) by (unfold dist2, minDistance in Hd; nia).
  pose proof (proj2 (cellSpread (px q) (px p) ltac:(lia) ltac:(lia))) as Sx.
  pose proof (proj2 (cellSpread (py q) (py p) ltac:(lia) ltac:(lia))) as Sy.
  assert (Wx : Z.abs (gridIndex (px p) - gridIndex (px q)) <= 2).
  { revert Sx. generalize (gridIndex (px q)) (gridIndex (px p)). intros a b Sx. lia. }
  assert (Wy : Z.abs (gridIndex (py p) - gridIndex (py q)) <= 2).
  { revert Sy. generalize (gridIndex (py q)) (gridIndex (py p)). intros a b Sy. lia. }
  unfold hasNearbyPoints. cbv zeta.
  apply existsb_exists. exists (gridIndex (py p) - gridIndex (py q)).
  split; [now apply window_In|].
  apply existsb_exists. exists (gridIndex (px p) - gridIndex (px q)).
  split; [now apply window_In|].
  replace (gridIndex (py q) + (gridIndex (py p) - gridIndex (py q)))
    with (gridIndex (py p)) by lia.
  replace (gridIndex (px q) + (gridIndex (px p) - gridIndex (px q)))
    with (gridIndex (px p)) by lia.
  replace (_ && _) with true by lia.
  rewrite Hcell. unfold sqrt_lt. unfold minDistance in *. lia.
Qed.

(** X12.  [hasNearbyPoints] answers [True] only for a real conflict: some
    cell of the grid within two rows and two columns of the candidate's
    cell holds a point closer to the candidate than [minDistance]. *)
Theorem X12_hasNearbyPoints_sound (g : grid_t) (q : point) :
  hasNearbyPoints g q = true ->
  exists (y x : Z) (e : point),
    Z.abs (y - gridIndex (py q)) <= 2 /\ Z.abs (x - gridIndex (px q)) <= 2
    /\ 0 <= y < gridRows /\ 0 <= x < gridCols
    /\ cell g y x = Some e
    /\ (euclid (px q) (py q) (px e) (py e) < IZR minDistance)%R.
Proof.
  unfold hasNearbyPoints. cbv zeta. intros H.
  apply existsb_exists in H as (dy & Hdy & H).
  apply existsb_exists in H as (dx & Hdx & H).
  destruct (_ && _) eqn:Hrange in H; [|discriminate].
  destruct (cell g _ _) as [e|] eqn:Hcell in H; [|discriminate].
  exists (gridIndex (py q) + dy), (gridIndex (px q) + dx), e.
  assert (Wy : Z.abs dy <= 2)
    by (unfold window in Hdy; cbn in Hdy; lia).
  assert (Wx : Z.abs dx <= 2)
    by (unfold window in Hdx; cbn in Hdx; lia).
  repeat split; try lia.
  - exact Hcell.
  - unfold euclid. apply sqrt_lt_real; [apply dist2_nonneg|exact H].
Qed.


(** X14.  The zone of the script, of radius 1 at (36, 24), excludes one
    point of the integer lattice only: its centre. *)
Theorem X14_default_zone_is_one_point (p : point) :
  isInExcludedZone defaultZones p = true <-> p = Point 36 24.
Proof.
  destruct p as [x y]. unfold isInExcludedZone, defaultZones, inSomeZone.
  cbn [px py zx zy zradius]. unfold sqrt_lt, dist2. split.
  - intros H. destruct (_ && _) eqn:E in H; [|discriminate].
    assert (x = 36 /\ y = 24) as [-> ->] by nia. reflexivity.
  - intros [= -> ->]. reflexivity.
Qed.

Lemma X1_counters_witness :
  let st := finalState (run stripZones refPropose 21 defaultSeed) in
  (length (activeList st) <= length (points st))%nat
  /\ (1 <= length (points st) <= 15)%nat
  /\ iteration st
     = 2 * Z.of_nat (length (points st)) - 1 - Z.of_nat (length (activeList st))
  /\ (In PStopping (stdout st) -> (11 <= length (points st))%nat).
Proof.
  apply (X1_counters stripZones refPropose 21 defaultSeed).
  vm_compute. reflexivity.
Defined.

Lemma X2_trace_fits_witness :
  lineFits (points (finalState (run boxedZones refPropose 21 defaultSeed)))
           (PSelected (Point 70 14)).
Proof.
  apply (X2_trace_fits boxedZones refPropose 21 defaultSeed).
  - vm_compute. reflexivity.
  - vm_compute. do 4 right. left. reflexivity.
Defined.

Lemma X3_grid_reflects_points_witness :
  let st := finalState (run boxedZones refPropose 21 defaultSeed) in
  gridExact (grid st) (points st)
  /\ (forall p, In p (activeList st) -> In p (points st)).
Proof.
  apply (X3_grid_reflects_points boxedZones refPropose 21 defaultSeed).
  vm_compute. reflexivity.
Defined.

Lemma X8_full_period_witness :
  SeededRandom.seed (SeededRandom.after 0 (SeededRandom.init defaultSeed))
  <> SeededRandom.seed (SeededRandom.after 1 (SeededRandom.init defaultSeed))
  /\ SeededRandom.seed
       (SeededRandom.after (0 + Z.to_nat (2 ^ 32)) (SeededRandom.init defaultSeed))
     = SeededRandom.seed (SeededRandom.after 0 (SeededRandom.init defaultSeed)).
Proof. apply (X8_full_period defaultSeed 0 1); lia. Defined.

Lemma X9_gridIndex_floor_witness :
  0 <= gridIndex 71
  /\ (5 * gridIndex 71) ^ 2 <= 2 * 71 ^ 2 < (5 * (gridIndex 71 + 1)) ^ 2.
Proof. apply (X9_gridIndex_floor 71). lia. Defined.

Lemma X10_insert_lookup_witness :
  cell (insertIntoGrid emptyGrid (Point 70 14))
       (gridIndex (py (Point 70 14))) (gridIndex (px (Point 70 14)))
  = Some (Point 70 14)
  /\ (forall y x, 0 <= y -> 0 <= x ->
        (y, x) <> (gridIndex (py (Point 70 14)), gridIndex (px (Point 70 14))) ->
        cell (insertIntoGrid emptyGrid (Point 70 14)) y x = cell emptyGrid y x)
  /\ gridShape (insertIntoGrid emptyGrid (Point 70 14)).
Proof.
  apply (X10_insert_lookup emptyGrid (Point 70 14)).
  - apply gridShape_empty.
  - reflexivity.
Defined.

Lemma X11_hasNearbyPoints_complete_witness :
  hasNearbyPoints (insertIntoGrid emptyGrid (Point 70 14)) (Point 67 17) = true.
Proof.
  apply (X11_hasNearbyPoints_complete _ (Point 70 14) (Point 67 17)).
  - reflexivity.
  - reflexivity.
  - vm_compute. reflexivity.
  - reflexivity.
Defined.

Lemma X12_hasNearbyPoints_sound_witness :
  exists (y x : Z) (e : point),
    Z.abs (y - gridIndex (py (Point 67 17))) <= 2
    /\ Z.abs (x - gridIndex (px (Point 67 17))) <= 2
    /\ 0 <= y < gridRows /\ 0 <= x < gridCols
    /\ cell (insertIntoGrid emptyGrid (Point 70 14)) y x = Some e
    /\ (euclid (px (Point 67 17)) (py (Point 67 17)) (px e) (py e)
        < IZR minDistance)%R.
Proof.
  apply (X12_hasNearbyPoints_sound
           (insertIntoGrid emptyGrid (Point 70 14)) (Point 67 17)).
  vm_compute. reflexivity.
Defined.

Lemma X15_placed_points_far_witness :
  (IZR minDistance <= euclid 70 14 53 23)%R.
Proof.
  apply (placed_points_far defaultZones refPropose 21 defaultSeed
           (finalState (run defaultZones refPropose 21 defaultSeed))
           0 14 (Point 70 14) (Point 53 23)).
  - vm_compute. reflexivity.
  - lia.
  - vm_compute. reflexivity.
  - vm_compute. reflexivity.
Defined.
